(** * Verification of scripts/initializers/pdp.js

    A shallow embedding of the product-detail-page initializer
    (scripts/initializers/pdp.js) and the proofs of its specification.

    Layout
    - [Js]      : the JavaScript data the script manipulates (JSON-like values,
                  truthiness, property access, the string built-ins it calls);
    - [Eff]     : the effects of the script: exceptions, console output and
                  calls into imported collaborators, as a writer/error monad;
    - [Pdp]     : the functions of pdp.js, in source order;
    - theorems  : one section per function. *)

From Stdlib Require Import ZArith Ascii String List.
From stdpp Require Import base option list gmap strings pretty fin_maps.

Local Set Warnings "-register-all".
Local Open Scope string_scope.
Local Open Scope list_scope.
Local Open Scope Z_scope.

(* ===================================================================== *)
(** * JavaScript values *)
(* ===================================================================== *)

Module Js.

(** The data reaching this script is JSON: the GraphQL response, the JSON-LD
    block, the placeholder file.  Objects are finite maps from property names
    to values (property order plays no role in pdp.js); numbers are the
    integers (no arithmetic is performed on them, only truthiness). *)
Inductive value : Type :=
| VUndefined
| VNull
| VBool (b : bool)
| VNum (n : Z)
| VStr (s : string)
| VArr (l : list value)
| VObj (m : gmap string value).

(** ToBoolean *)
Definition to_boolean (v : value) : bool :=
  match v with
  | VUndefined | VNull => false
  | VBool b => b
  | VNum n => negb (n =? 0)
  | VStr s => negb (String.eqb s "")
  | VArr _ | VObj _ => true
  end.

(** [a || b] on already evaluated operands *)
Definition or_else (a b : value) : value := if to_boolean a then a else b.

Definition is_nullish (v : value) : bool :=
  match v with VUndefined | VNull => true | _ => false end.

Definition char_at (s : string) (i : nat) : value :=
  match String.get i s with
  | Some c => VStr (String c EmptyString)
  | None => VUndefined
  end.

(** [v.name] for a value that is neither [undefined] nor [null]: own data
    properties and [length].  The names pdp.js reads ([videos], [images],
    [url], [title], [preview], [sku], [data], [products], ['@type'], [image],
    [optionsUIDs], [length]) name no prototype method and no array index. *)
Definition prop (v : value) (name : string) : value :=
  match v with
  | VObj m => default VUndefined (m !! name)
  | VArr l => if String.eqb name "length" then VNum (Z.of_nat (length l)) else VUndefined
  | VStr s => if String.eqb name "length" then VNum (Z.of_nat (String.length s)) else VUndefined
  | _ => VUndefined
  end.

(** [v[i]] for a value that is neither [undefined] nor [null] *)
Definition at_index (v : value) (i : nat) : value :=
  match v with
  | VArr l => default VUndefined (l !! i)
  | VStr s => char_at s i
  | VObj m => default VUndefined (m !! pretty i)
  | _ => VUndefined
  end.

(** [v?.name] and [v?.[i]] *)
Definition opt_prop (v : value) (name : string) : value :=
  if is_nullish v then VUndefined else prop v name.

Definition opt_index (v : value) (i : nat) : value :=
  if is_nullish v then VUndefined else at_index v i.

(** Own enumerable properties, as copied by [{...v}]. *)
Definition indexed (l : list value) : gmap string value :=
  list_to_map (imap (λ i x, (pretty i, x)) l).

Definition chars (s : string) : list value :=
  (λ c, VStr (String c EmptyString)) <$> list_ascii_of_string s.

Definition own_props (v : value) : gmap string value :=
  match v with
  | VObj m => m
  | VArr l => indexed l
  | VStr s => indexed (chars s)
  | _ => ∅
  end.

(** ** String built-ins *)

(** [s.split(sep)] for a one-character separator *)
Fixpoint split (sep : ascii) (s : string) : list string :=
  match s with
  | EmptyString => [EmptyString]
  | String c s' =>
      if Ascii.eqb c sep then EmptyString :: split sep s'
      else match split sep s' with
           | h :: t => String c h :: t
           | [] => [String c EmptyString]
           end
  end.

(** [Boolean] on a string, as passed to [filter] *)
Definition nonempty (s : string) : bool := negb (String.eqb s "").

Definition is_digit (c : ascii) : bool :=
  ((48 <=? N_of_ascii c) && (N_of_ascii c <=? 57))%N.

(** [/^\d+$/.test(s)] *)
Definition all_digits (s : string) : bool :=
  nonempty s && forallb is_digit (list_ascii_of_string s).

(** what follows [pre] in [s], when [s] starts with [pre] *)
Fixpoint strip_prefix (pre s : string) : option string :=
  match pre, s with
  | EmptyString, _ => Some s
  | String a pre', String b s' =>
      if Ascii.eqb a b then strip_prefix pre' s' else None
  | String _ _, EmptyString => None
  end.

(** [s.replace(/^https?:/, '')]: the optional [s] is matched greedily *)
Definition strip_scheme (s : string) : string :=
  match strip_prefix "https:" s with
  | Some rest => rest
  | None => default s (strip_prefix "http:" s)
  end.

End Js.
Export Js.

(* ===================================================================== *)
(** * Effects *)
(* ===================================================================== *)

Module Eff.

(** What a JavaScript [throw] (or a rejected promise) carries. *)
Inductive exn : Type :=
| TypeError                      (* raised by the language or by [new URL] *)
| SyntaxError                    (* raised by [JSON.parse] *)
| Rejected (reason : value).     (* raised by an imported collaborator *)

Inductive outcome (A : Type) : Type :=
| Ret (a : A)
| Throw (e : exn).
Arguments Ret {A} a.
Arguments Throw {A} e.

(** The configuration object handed to [initializers.mountImmediately].  Its
    [models.ProductDetails.transformer] entry is the function [transformer]
    below and is not repeated here. *)
Record mount_config : Type := MountConfig {
  cfg_sku : value;
  cfg_optionsUIDs : value;
  cfg_langDefinitions : value;
  cfg_initialData : value;
  cfg_acdl : bool;
  cfg_persistURLParams : bool;
}.

(** Calls into imported modules.  Their results are not determined by pdp.js;
    the [World] below supplies them. *)
Inductive call : Type :=
| SetEndpoint
| PreloadFile (href : value) (kind : string)
| GetProductSku
| GetOptionsUIDsFromUrl
| FetchGraphQl (query method : string) (skus : list value)
| FetchPlaceholders (path : string)
| TryGenerateAemAssetsOptimizedUrl (image sku : value)
| UIRender (props : value)         (* UI.render(Image, props)(<detached div>) *)
| LoadErrorPage
| MountImmediately (cfg : mount_config).

Inductive level : Type := Log | Warn | Debug.

Inductive event : Type :=
| Called (c : call)
| Console (lv : level) (label : string) (args : list value) (err : option exn).

(** Everything pdp.js obtains from outside. *)
Record World : Type := {
  (** [new URL(v).pathname]; [None] when the constructor throws *)
  URL_pathname : value → option string;
  (** [JSON.parse(s)]; [None] when it throws *)
  JSON_parse : string → option value;
  (** [textContent] of the first [script[type="application/ld+json"]] element;
      [None] when the page has no such element *)
  jsonLdScript : option string;
  (** content of the page's metadata tags, by name *)
  metadata : gmap string string;
  (** the imported constants *)
  PRODUCT_FRAGMENT : string;
  isAemAssetsEnabled : bool;
  (** what an imported function returns (or throws / rejects with) *)
  respond : call → outcome value;
}.

(** A computation yields an outcome and the events it performed, in order.
    Events performed before a [throw] are kept. *)
Definition M (A : Type) : Type := outcome A * list event.

Definition ret {A} (a : A) : M A := (Ret a, []).
Definition throw {A} (e : exn) : M A := (Throw e, []).
Definition emit (ev : event) : M unit := (Ret (), [ev]).

Definition bind {A B} (m : M A) (k : A → M B) : M B :=
  match m with
  | (Ret a, evs) => let '(o, evs') := k a in (o, evs ++ evs')
  | (Throw e, evs) => (Throw e, evs)
  end.

(** [try { body } catch (e) { handler e }] *)
Definition try_catch {A} (body : M A) (handler : exn → M A) : M A :=
  match body with
  | (Ret a, evs) => (Ret a, evs)
  | (Throw e, evs) => let '(o, evs') := handler e in (o, evs ++ evs')
  end.

(** [await Promise.all([a, b])]: both chains run whatever the other does; the
    result is the pair of results, or the rejection of a chain that failed.
    The events of the two chains are listed one chain after the other; their
    actual interleaving depends on the network. *)
Definition promise_all2 {A B} (a : M A) (b : M B) : M (A * B) :=
  let '(oa, ea) := a in
  let '(ob, eb) := b in
  (match oa, ob with
   | Ret x, Ret y => Ret (x, y)
   | Throw e, _ => Throw e
   | _, Throw e => Throw e
   end, ea ++ eb).

Definition outcome_of {A} (m : M A) : outcome A := fst m.
Definition events_of {A} (m : M A) : list event := snd m.

#[global] Instance M_ret : MRet M := @ret.
#[global] Instance M_bind : MBind M := λ A B k m, bind m k.

Definition invoke (w : World) (c : call) : M value := (respond w c, [Called c]).

Definition console (lv : level) (label : string) (args : list value)
    (err : option exn) : M unit :=
  emit (Console lv label args err).

(** [l.map(f)] where the callback may throw *)
Fixpoint array_map (f : value → M value) (l : list value) : M (list value) :=
  match l with
  | [] => mret []
  | x :: l' => y ← f x; ys ← array_map f l'; mret (y :: ys)
  end.

(** [v.name]: a [TypeError] on [undefined] and [null] *)
Definition member (v : value) (name : string) : M value :=
  if is_nullish v then throw TypeError else mret (prop v name).

(** the elements produced by [...v] inside an array literal *)
Definition spread_iter (v : value) : M (list value) :=
  match v with
  | VArr l => mret l
  | VStr s => mret (chars s)
  | _ => throw TypeError
  end.

End Eff.
Export Eff.

(* ===================================================================== *)
(** * scripts/initializers/pdp.js *)
(* ===================================================================== *)

Module Pdp.

Section WithWorld.
Variable w : World.

(** [new URL(url).pathname] *)
Definition new_URL_pathname (url : value) : M string :=
  match URL_pathname w url with
  | Some p => mret p
  | None => throw TypeError
  end.

Definition player_prefix : string := "https://player.vimeo.com/video/".

(** [toVimeoEmbedUrl(url)].  The [try] block either returns (Some) or falls
    through to the final [return url] (None); so does the [catch] block. *)
Definition toVimeoEmbedUrl (url : value) : M value :=
  early ← try_catch
    (pathname ← new_URL_pathname url;
     let videoId := head (filter nonempty (split "/" pathname)) in
     match videoId with
     | Some id =>
         if nonempty id && all_digits id
         then mret (Some (VStr (player_prefix +:+ id)))
         else mret None
     | None => mret None
     end)
    (λ e, console Warn "Failed to parse Vimeo URL:" [url] (Some e);; mret None);
  match early with
  | Some embed => mret embed
  | None => mret url
  end.

Definition PRODUCT_QUERY_WITH_VIDEOS : string :=
  "
  query GET_PRODUCT_DATA($skus: [String]) {
    products(skus: $skus) {
      ...PRODUCT_FRAGMENT
      videos {
        url
        title
        preview {
          label
          roles
          url
        }
      }
    }
  }
  " +:+ PRODUCT_FRAGMENT w +:+ "
".

(** [target.name = x] in module (strict) code, for a truthy [target].  A
    primitive target raises a [TypeError].  Named properties of arrays are
    outside the value model: the array is left as it is. *)
Definition assign_prop (target : value) (name : string) (x : value) : M value :=
  match target with
  | VObj m => mret (VObj (<[name := x]> m))
  | VArr l => mret (VArr l)
  | _ => throw TypeError
  end.

(** [fetchProductDataWithVideos(sku, options = {})] *)
Definition fetchProductDataWithVideos (sku options : value) : M value :=
  let options := match options with VUndefined => VObj ∅ | _ => options end in
  response ← invoke w (FetchGraphQl PRODUCT_QUERY_WITH_VIDEOS "GET" [sku]);
  data ← member response "data";
  let product := opt_index (opt_prop data "products") 0 in
  if negb (to_boolean product) then mret VNull
  else
    optionsUIDs ← member options "optionsUIDs";
    if to_boolean optionsUIDs
    then assign_prop product "optionUIDs" optionsUIDs
    else mret product.

Definition IMAGES_SIZES : gmap string value :=
  <["width" := VNum 960]> (<["height" := VNum 1191]> ∅).

(** Modelled from the spec: [getMetadata] of ../aem.js, which is not part of
    the sources at hand.  It reads a metadata tag of the page and yields its
    content, and [null] when the page has no such tag (sections 4.3 and 8:
    "the og:image meta value if present, else the image meta value, else
    null"). *)
Definition getMetadata (name : string) : value :=
  match metadata w !! name with
  | Some content => VStr content
  | None => VNull
  end.

(** [v === 'literal'] *)
Definition strict_eq_str (v : value) (lit : string) : bool :=
  match v with VStr s => String.eqb s lit | _ => false end.

Definition JSON_parse_text (text : string) : M value :=
  match JSON_parse w text with
  | Some v => mret v
  | None => throw SyntaxError
  end.

(** [getMetadata('og:image') || getMetadata('image')] *)
Definition metadataImage : value :=
  or_else (getMetadata "og:image") (getMetadata "image").

(** [extractMainImageUrl()].  [jsonLdScript?.textContent] is [undefined]
    when the page has no JSON-LD element, and the element's text otherwise. *)
Definition extractMainImageUrl : M value :=
  match jsonLdScript w with
  | None => mret metadataImage
  | Some textContent =>
      if negb (to_boolean (VStr textContent)) then mret metadataImage
      else
        try_catch
          (jsonLd ← JSON_parse_text textContent;
           if strict_eq_str (opt_prop jsonLd "@type") "Product"
              && to_boolean (opt_prop jsonLd "image")
           then member jsonLd "image"
           else mret metadataImage)
          (λ error,
             console Debug "Failed to parse JSON-LD:" [] (Some error);;
             mret metadataImage)
  end.

Definition preloadFile (href : value) (kind : string) : M unit :=
  invoke w (PreloadFile href kind);; mret ().

(** [preloadPDPAssets()] *)
Definition preloadPDPAssets : M unit :=
  preloadFile (VStr "/scripts/__dropins__/storefront-pdp/api.js") "script";;
  preloadFile (VStr "/scripts/__dropins__/storefront-pdp/render.js") "script";;
  preloadFile (VStr "/scripts/__dropins__/storefront-pdp/containers/ProductHeader.js") "script";;
  preloadFile (VStr "/scripts/__dropins__/storefront-pdp/containers/ProductPrice.js") "script";;
  preloadFile (VStr "/scripts/__dropins__/storefront-pdp/containers/ProductShortDescription.js") "script";;
  preloadFile (VStr "/scripts/__dropins__/storefront-pdp/containers/ProductOptions.js") "script";;
  preloadFile (VStr "/scripts/__dropins__/storefront-pdp/containers/ProductQuantity.js") "script";;
  preloadFile (VStr "/scripts/__dropins__/storefront-pdp/containers/ProductDescription.js") "script";;
  preloadFile (VStr "/scripts/__dropins__/storefront-pdp/containers/ProductAttributes.js") "script";;
  preloadFile (VStr "/scripts/__dropins__/storefront-pdp/containers/ProductGallery.js") "script";;
  imageUrl ← extractMainImageUrl;
  if to_boolean imageUrl
  then preloadFile imageUrl "image"
  else console Warn "Unable to infer main image from JSON-LD or meta tags" [] None.

(** The callback of [videoAsImages = rawData.videos.map(...)] *)
Definition videoAsImage (v : value) : M value :=
  vurl ← member v "url";
  url ← toVimeoEmbedUrl vurl;
  title ← member v "title";
  mret (VObj (<["url" := url]>
             (<["label" := or_else title (VStr "Product Video")]>
             (<["width" := VNum 640]>
             (<["height" := VNum 360]>
             (<["isVideo" := VBool true]> ∅)))))).

(** The callback of [videos: rawData.videos.map(...)] *)
Definition videoEntry (v : value) : M value :=
  vurl ← member v "url";
  url ← toVimeoEmbedUrl vurl;
  title ← member v "title";
  preview ← member v "preview";
  previewOut ←
    (if to_boolean preview
     then purl ← member preview "url"; mret (VObj (<["url" := purl]> ∅))
     else mret VNull);
  mret (VObj (<["url" := url]> (<["title" := title]> (<["preview" := previewOut]> ∅)))).

(** [receiver.map(f)]: only arrays have a [map] method *)
Definition call_map (receiver : value) (f : value → M value) : M value :=
  match receiver with
  | VArr l => out ← array_map f l; mret (VArr out)
  | _ => throw TypeError
  end.

(** [models.ProductDetails.transformer] *)
Definition transformer (rawData : value) : M value :=
  console Log "rawData" [rawData] None;;
  if negb (to_boolean (opt_prop (opt_prop rawData "videos") "length"))
  then mret rawData
  else
    videos ← member rawData "videos";
    videoAsImages ← call_map videos videoAsImage;
    (* the object literal, left to right *)
    let copied := own_props rawData in
    videos' ← member rawData "videos";
    videosOut ← call_map videos' videoEntry;
    front ← spread_iter videoAsImages;
    images ← member rawData "images";
    back ← spread_iter (or_else images (VArr []));
    mret (VObj (<["images" := VArr (front ++ back)]>
               (<["videos" := videosOut]> copied))).

(** [receiver.replace(/^https?:/, '')]: only strings have a [replace] method *)
Definition call_replace_scheme (receiver : value) : M value :=
  match receiver with
  | VStr s => mret (VStr (strip_scheme s))
  | _ => throw TypeError
  end.

(** [preloadImageMiddleware(data)] *)
Definition preloadImageMiddleware (data : value) : M value :=
  let firstUrl := opt_prop (opt_index (opt_prop data "images") 0) "url" in
  image ← (if is_nullish firstUrl then mret VUndefined
           else call_replace_scheme firstUrl);
  (if to_boolean image then
     chosen ←
       (if isAemAssetsEnabled w then
          sku ← member data "sku";
          url ← invoke w (TryGenerateAemAssetsOptimizedUrl image sku);
          mret (url, <["auto" := VUndefined]>
                     (<["fit" := VUndefined]>
                     (<["crop" := VUndefined]> IMAGES_SIZES)))
        else mret (image, IMAGES_SIZES));
     let '(url, imageParams) := chosen in
     invoke w (UIRender (VObj
       (<["loading" := VStr "eager"]>
       (<["params" := VObj imageParams]>
       (own_props (prop (VObj IMAGES_SIZES) "mobile") ∪ <["src" := url]> ∅)))));;
     mret ()
   else mret ());;
  mret data.

(** The callback run by [initializeDropin(...)()], in three parts. *)

(** [Promise.all([fetchProductDataWithVideos(sku, { optionsUIDs })
                    .then(preloadImageMiddleware),
                  fetchPlaceholders('placeholders/pdp.json')])] *)
Definition fetchAll (sku optionsUIDs : value) : M (value * value) :=
  promise_all2
    (fetchProductDataWithVideos sku (VObj (<["optionsUIDs" := optionsUIDs]> ∅))
       ≫= preloadImageMiddleware)
    (invoke w (FetchPlaceholders "placeholders/pdp.json")).

(** from [console.log('product', product)] to the end of the callback *)
Definition handOff (sku optionsUIDs product labels : value) : M value :=
  console Log "product" [product] None;;
  if negb (to_boolean (opt_prop product "sku"))
  then invoke w LoadErrorPage
  else
    let langDefinitions := VObj (<["default" := VObj (own_props labels)]> ∅) in
    invoke w (MountImmediately {|
      cfg_sku := sku;
      cfg_optionsUIDs := optionsUIDs;
      cfg_langDefinitions := langDefinitions;
      cfg_initialData := VObj (own_props product);
      cfg_acdl := true;
      cfg_persistURLParams := true;
    |}).

Definition initCallback : M value :=
  invoke w SetEndpoint;;
  preloadPDPAssets;;
  sku ← invoke w GetProductSku;
  optionsUIDs ← invoke w GetOptionsUIDsFromUrl;
  fetched ← fetchAll sku optionsUIDs;
  handOff sku optionsUIDs fetched.1 fetched.2.

End WithWorld.
End Pdp.
Export Pdp.

(* ===================================================================== *)
(** * A concrete world, to run the definitions *)
(* ===================================================================== *)

Module Sample.

Definition stops_path (c : ascii) : bool :=
  Ascii.eqb c "?" || Ascii.eqb c "#".

Definition stops_host (c : ascii) : bool :=
  Ascii.eqb c "/" || stops_path c.

Fixpoint take_until (stop : ascii → bool) (s : string) : string :=
  match s with
  | EmptyString => EmptyString
  | String c s' => if stop c then EmptyString else String c (take_until stop s')
  end.

Fixpoint drop_until (stop : ascii → bool) (s : string) : string :=
  match s with
  | EmptyString => EmptyString
  | String c s' => if stop c then s else drop_until stop s'
  end.

Definition after_scheme (s : string) : option string :=
  match strip_prefix "https://" s with
  | Some rest => Some rest
  | None => strip_prefix "http://" s
  end.

(** The pathname of a plain [http(s)://host/path?query#fragment] address;
    every other input is rejected. *)
Definition plain_pathname (v : value) : option string :=
  match v with
  | VStr s =>
      rest ← after_scheme s;
      if String.eqb (take_until stops_host rest) "" then None
      else
        let path := take_until stops_path (drop_until stops_host rest) in
        Some (if String.eqb path "" then "/" else path)
  | _ => None
  end.

(** A page without JSON-LD and without metadata, whose collaborators answer
    [undefined] to every call. *)
Definition blank : World := {|
  URL_pathname := plain_pathname;
  JSON_parse := λ _, None;
  jsonLdScript := None;
  metadata := ∅;
  PRODUCT_FRAGMENT := "fragment PRODUCT_FRAGMENT on ProductView { sku }";
  isAemAssetsEnabled := false;
  respond := λ _, Ret VUndefined;
|}.

(** The JSON text [{"@type":"Product","image":"<image>"}] and the value
    [JSON.parse] makes of it. *)
Definition quoted (s : string) : string :=
  String (ascii_of_nat 34) (s +:+ String (ascii_of_nat 34) EmptyString).

Definition product_block (image : string) : string :=
  "{" +:+ quoted "@type" +:+ ":" +:+ quoted "Product" +:+ ","
      +:+ quoted "image" +:+ ":" +:+ quoted image +:+ "}".

Definition parse_block (image text : string) : option value :=
  if String.eqb text (product_block image)
  then Some (VObj (<["@type" := VStr "Product"]> (<["image" := VStr image]> ∅)))
  else None.

(** A page whose JSON-LD block describes a product with the image [image],
    and which has an [og:image] tag. *)
Definition product_page (image : string) : World := {|
  URL_pathname := plain_pathname;
  JSON_parse := parse_block image;
  jsonLdScript := Some (product_block image);
  metadata := <["og:image" := "http://x/og.jpg"]> ∅;
  PRODUCT_FRAGMENT := "fragment PRODUCT_FRAGMENT on ProductView { sku }";
  isAemAssetsEnabled := false;
  respond := λ _, Ret VUndefined;
|}.

(** The same page for a product without image: the field is there, empty. *)
Definition empty_image : World := product_page "".

(** A catalog that knows one product, [found], and answers every query
    with it; the other collaborators answer [undefined]. *)
Definition catalog (found : value) : World := {|
  URL_pathname := plain_pathname;
  JSON_parse := λ _, None;
  jsonLdScript := None;
  metadata := ∅;
  PRODUCT_FRAGMENT := "fragment PRODUCT_FRAGMENT on ProductView { sku }";
  isAemAssetsEnabled := false;
  respond := λ c,
    match c with
    | FetchGraphQl _ _ _ =>
        Ret (VObj (<["data" := VObj (<["products" := VArr [found]]> ∅)]> ∅))
    | GetProductSku => Ret (VStr "ABC123")
    | _ => Ret VUndefined
    end;
|}.

(** The products of the end-to-end scenarios (section 8). *)
Definition demo_video : value :=
  VObj (<["url" := VStr "https://vimeo.com/1156860195?share=copy"]>
       (<["title" := VStr "Demo"]> ∅)).

Definition demo_image : value := VObj (<["url" := VStr "http://x/a.jpg"]> ∅).

Definition with_video : gmap string value :=
  <["sku" := VStr "ABC123"]>
  (<["videos" := VArr [demo_video]]>
  (<["images" := VArr [demo_image]]> ∅)).

Definition without_video : gmap string value :=
  <["sku" := VStr "ABC123"]>
  (<["images" := VArr [VObj (<["url" := VStr "http://x/img.jpg"]> ∅)]]>
  (<["videos" := VArr []]> ∅)).

End Sample.

(* ===================================================================== *)
(** * The contracts, in the words of the specification *)
(* ===================================================================== *)

Module Contract.

(** [k] consecutive slashes *)
Fixpoint slashes (k : nat) : string :=
  match k with
  | O => EmptyString
  | S k' => String "/" (slashes k')
  end.

Definition no_slash (s : string) : Prop :=
  Forall (λ c, c ≠ "/"%char) (list_ascii_of_string s).

(** [id] is the first non-empty segment of the path [p]: [p] is some slashes,
    then [id], then nothing or a slash and more. *)
Definition FirstSegment (p id : string) : Prop :=
  ∃ k rest,
    p = slashes k +:+ id +:+ rest ∧
    id ≠ "" ∧ no_slash id ∧
    (rest = "" ∨ ∃ r, rest = String "/" r).

Definition Digit (c : ascii) : Prop :=
  c ∈ ["0"; "1"; "2"; "3"; "4"; "5"; "6"; "7"; "8"; "9"]%char.

(** a non-negative integer string *)
Definition Numeric (s : string) : Prop :=
  s ≠ "" ∧ Forall Digit (list_ascii_of_string s).

(** The same segment, computed: drop the leading slashes, read up to the
    next one. *)
Fixpoint skip (s : string) : string :=
  match s with
  | EmptyString => EmptyString
  | String c s' => if Ascii.eqb c "/" then skip s' else s
  end.

Fixpoint segment (s : string) : string :=
  match s with
  | EmptyString => EmptyString
  | String c s' => if Ascii.eqb c "/" then EmptyString else String c (segment s')
  end.

Fixpoint after_segment (s : string) : string :=
  match s with
  | EmptyString => EmptyString
  | String c s' => if Ascii.eqb c "/" then s else after_segment s'
  end.

Fixpoint leading (s : string) : nat :=
  match s with
  | EmptyString => O
  | String c s' => if Ascii.eqb c "/" then S (leading s') else O
  end.

Definition first_segment_of (p : string) : option string :=
  if nonempty (skip p) then Some (segment (skip p)) else None.

(** What the normalizer is to return for [url] (section 4.1). *)
Definition normalized (w : World) (url : value) : value :=
  match URL_pathname w url with
  | Some p =>
      match first_segment_of p with
      | Some id => if all_digits id then VStr (player_prefix +:+ id) else url
      | None => url
      end
  | None => url
  end.

(** The platform's URL parser reads player addresses as the URL standard
    prescribes: the path of [https://player.vimeo.com/video/<id>] is
    [/video/<id>]. *)
Definition parses_player_urls (w : World) : Prop :=
  ∀ id, Numeric id →
    URL_pathname w (VStr (player_prefix +:+ id)) = Some ("/video/" +:+ id).

(** What it is to log. *)
Definition warnings (w : World) (url : value) : list event :=
  match URL_pathname w url with
  | Some _ => []
  | None => [Console Warn "Failed to parse Vimeo URL:" [url] (Some TypeError)]
  end.

(** neither [undefined] nor [null]: a value whose properties can be read *)
Definition present (v : value) : Prop := is_nullish v = false.

(** The gallery entry derived from the video [v] (sections 3 and 4.5). *)
Definition video_as_image (w : World) (v : value) : value :=
  VObj (<["url" := normalized w (prop v "url")]>
       (<["label" := if to_boolean (prop v "title") then prop v "title"
                     else VStr "Product Video"]>
       (<["width" := VNum 640]>
       (<["height" := VNum 360]>
       (<["isVideo" := VBool true]> ∅))))).

(** The rewritten video [v]: normalized address, title, preview reduced to
    its address (section 4.5). *)
Definition video_entry (w : World) (v : value) : value :=
  VObj (<["url" := normalized w (prop v "url")]>
       (<["title" := prop v "title"]>
       (<["preview" := if to_boolean (prop v "preview")
                       then VObj (<["url" := prop (prop v "preview") "url"]> ∅)
                       else VNull]> ∅))).

(** The product [m] has the images [images]: its [images] field holds them,
    or the field is absent and there are none. *)
Definition has_images (m : gmap string value) (images : list value) : Prop :=
  m !! "images" = Some (VArr images) ∨ (m !! "images" = None ∧ images = []).

(** [gallery] is the projection of [videos] in front of [images]: one derived
    entry per video, in the order of the videos, then the images as they
    were, in their order. *)
Definition gallery_of (w : World) (videos images gallery : list value) : Prop :=
  length gallery = (length videos + length images)%nat ∧
  (∀ i v, videos !! i = Some v → gallery !! i = Some (video_as_image w v)) ∧
  (∀ j x, images !! j = Some x → gallery !! (length videos + j)%nat = Some x).

(** The address of the first image of the product [data], when it has one
    (section 4.6: "the first entry of its images sequence"). *)
Definition first_image_url (data : value) : value :=
  opt_prop (opt_index (opt_prop data "images") 0) "url".

(** That address is a string when it is there at all (section 3: images are
    records with a [url]). *)
Definition image_url_is_text (data : value) : Prop :=
  first_image_url data = VUndefined ∨ first_image_url data = VNull ∨
  ∃ s, first_image_url data = VStr s.

(** The address to preload, without its scheme; empty when there is nothing
    to preload. *)
Definition preload_target (data : value) : string :=
  match first_image_url data with
  | VStr s => strip_scheme s
  | _ => ""
  end.

(** The collaborator answers the call [c] (it neither throws nor rejects). *)
Definition completes (w : World) (c : call) : Prop :=
  ∃ v, respond w c = Ret v.

(** ** The main image (sections 4.3 and 8) *)

(** The parsed JSON-LD block of the page: there is a JSON-LD element, it has
    content, and the content parses. *)
Definition jsonLd_of (w : World) : option value :=
  text ← jsonLdScript w;
  if nonempty text then JSON_parse w text else None.

(** The block declares the type 'Product'. *)
Definition declares_product (jsonLd : value) : bool :=
  match jsonLd with
  | VObj m =>
      match m !! "@type" with
      | Some (VStr type) => String.eqb type "Product"
      | _ => false
      end
  | _ => false
  end.

(** The image field of the block, when it has one. *)
Definition image_field (jsonLd : value) : option value :=
  match jsonLd with
  | VObj m => m !! "image"
  | _ => None
  end.

(** As the specification states it: the image of a JSON-LD product block
    that has an image field. *)
Definition stated_jsonLd_image (w : World) : option value :=
  jsonLd ← jsonLd_of w;
  if declares_product jsonLd then image_field jsonLd else None.

(** As the specification states it: og:image if present, else image if
    present, else null. *)
Definition stated_metadata_image (w : World) : value :=
  match metadata w !! "og:image" with
  | Some content => VStr content
  | None =>
      match metadata w !! "image" with
      | Some content => VStr content
      | None => VNull
      end
  end.

Definition stated_main_image (w : World) : value :=
  default (stated_metadata_image w) (stated_jsonLd_image w).

(** As the code has it: an image field counts when its value is truthy, and
    an og:image tag when its content is not empty. *)
Definition trusted_jsonLd_image (w : World) : option value :=
  image ← stated_jsonLd_image w;
  if to_boolean image then Some image else None.

Definition usable_metadata_image (w : World) : value :=
  match metadata w !! "og:image" with
  | Some content =>
      if nonempty content then VStr content
      else match metadata w !! "image" with
           | Some content' => VStr content'
           | None => VNull
           end
  | None =>
      match metadata w !! "image" with
      | Some content => VStr content
      | None => VNull
      end
  end.

(** ** The fetched product (sections 4.2 and 6) *)

(** The response, shaped [{ data: { products: [...] } }], holds the record
    [p] as its first product. *)
Definition FirstProduct (response : value) (p : gmap string value) : Prop :=
  ∃ r d others,
    response = VObj r ∧
    r !! "data" = Some (VObj d) ∧
    d !! "products" = Some (VArr (VObj p :: others)).

(** The response holds no product: no data, no product list, an empty list,
    or a list that starts with [null]. *)
Definition NoProduct (response : value) : Prop :=
  ∃ r,
    response = VObj r ∧
    (r !! "data" = None ∨ r !! "data" = Some VNull ∨
     ∃ d, r !! "data" = Some (VObj d) ∧
          (d !! "products" = None ∨ d !! "products" = Some VNull ∨
           d !! "products" = Some (VArr []) ∨
           ∃ others, d !! "products" = Some (VArr (VNull :: others)))).

(** An options bag: an object, or the omitted argument. *)
Definition is_bag (options : value) : Prop :=
  options = VUndefined ∨ ∃ o, options = VObj o.

(** The option UIDs supplied in the bag: the value of its [optionsUIDs]
    entry when that is a truthy value (a list of UIDs, even an empty one);
    an omitted bag, a missing entry, [undefined], [null] and the empty string
    supply none. *)
Definition supplied_uids (options : value) : option value :=
  match options with
  | VObj o =>
      match o !! "optionsUIDs" with
      | Some uids => if to_boolean uids then Some uids else None
      | None => None
      end
  | _ => None
  end.

(** ** The hand-off (section 4.7) *)

(** The two ways the callback can end: the redirect to the error page and
    the mount. *)
Definition terminal (ev : event) : bool :=
  match ev with
  | Called LoadErrorPage | Called (MountImmediately _) => true
  | _ => false
  end.

(** A computation is quiet when it neither redirects nor mounts. *)
Definition quiet {A} (m : M A) : Prop :=
  Forall (λ ev, terminal ev = false) (events_of m).

(** The fetched product is absent, or lacks a SKU: it has no [sku] entry, or
    a [null] or empty one. *)
Definition lacks_sku (product : value) : Prop :=
  product = VNull ∨
  ∃ m, product = VObj m ∧
       (m !! "sku" = None ∨ m !! "sku" = Some VNull ∨ m !! "sku" = Some (VStr "")).

(** The fetched product is present with a non-empty SKU. *)
Definition has_sku (product : value) : Prop :=
  ∃ m s, product = VObj m ∧ m !! "sku" = Some (VStr s) ∧ s ≠ "".

(** The callback gets as far as the fetch, for the SKU [sku] and the option
    UIDs [uids] of the address, and the fetch yields [product] and
    [labels]. *)
Record fetched (w : World) (sku uids product labels : value) : Prop := {
  endpoint_set : completes w SetEndpoint;
  assets_preloaded : outcome_of (preloadPDPAssets w) = Ret ();
  sku_read : respond w GetProductSku = Ret sku;
  uids_read : respond w GetOptionsUIDsFromUrl = Ret uids;
  data_fetched : outcome_of (fetchAll w sku uids) = Ret (product, labels);
}.

End Contract.
Export Contract.

(* ===================================================================== *)
(** * Further behaviour of the script: vocabulary *)
(* ===================================================================== *)

Module Behaviour.

(** Every event of the computation [m] satisfies [P]. *)
Definition all_events {A} (P : event → Prop) (m : M A) : Prop :=
  Forall P (events_of m).

(** The warning of the normalizer, for some address. *)
Definition parse_warning (ev : event) : Prop :=
  ∃ url, ev = Console Warn "Failed to parse Vimeo URL:" [url] (Some TypeError).

(** A value that [...v] cannot iterate: neither an array nor a string. *)
Definition not_iterable (v : value) : Prop :=
  match v with
  | VArr _ | VStr _ => False
  | _ => True
  end.

(** A value that is not an object (a primitive, [null], [undefined] or an
    array). *)
Definition not_object (v : value) : Prop :=
  match v with
  | VObj _ => False
  | _ => True
  end.

(** The script bundles of the product page, in the order of their preload
    hints. *)
Definition script_bundles : list string :=
  [ "/scripts/__dropins__/storefront-pdp/api.js";
    "/scripts/__dropins__/storefront-pdp/render.js";
    "/scripts/__dropins__/storefront-pdp/containers/ProductHeader.js";
    "/scripts/__dropins__/storefront-pdp/containers/ProductPrice.js";
    "/scripts/__dropins__/storefront-pdp/containers/ProductShortDescription.js";
    "/scripts/__dropins__/storefront-pdp/containers/ProductOptions.js";
    "/scripts/__dropins__/storefront-pdp/containers/ProductQuantity.js";
    "/scripts/__dropins__/storefront-pdp/containers/ProductDescription.js";
    "/scripts/__dropins__/storefront-pdp/containers/ProductAttributes.js";
    "/scripts/__dropins__/storefront-pdp/containers/ProductGallery.js" ].

Definition script_hint (href : string) : event :=
  Called (PreloadFile (VStr href) "script").


(** The properties handed to the image component: source, sizing parameters,
    eager loading. *)
Definition render_props (src : value) (params : gmap string value) : value :=
  VObj (<["src" := src]>
       (<["params" := VObj params]>
       (<["loading" := VStr "eager"]> ∅))).

(** The sizing parameters, as they are and with the cropping parameters
    cleared. *)
Definition plain_params : gmap string value :=
  <["width" := VNum 960]> (<["height" := VNum 1191]> ∅).

Definition cleared_params : gmap string value :=
  <["width" := VNum 960]>
  (<["height" := VNum 1191]>
  (<["crop" := VUndefined]>
  (<["fit" := VUndefined]>
  (<["auto" := VUndefined]> ∅)))).

(** The request for the product [sku] and the request for the labels. *)
Definition product_request (w : World) (sku : value) : call :=
  FetchGraphQl (PRODUCT_QUERY_WITH_VIDEOS w) "GET" [sku].

Definition labels_request : call := FetchPlaceholders "placeholders/pdp.json".

(** The events [evs] hold at most one redirect or mount, and nothing after
    it. *)
Definition ends_once (evs : list event) : Prop :=
  ∃ before rest,
    evs = before ++ rest ∧
    Forall (λ ev, terminal ev = false) before ∧
    (rest = [] ∨ ∃ last, rest = [last] ∧ terminal last = true).

End Behaviour.
Export Behaviour.

(** Worlds for the scenarios of the further behaviour. *)
Module Scenario.

(** A page with the JSON-LD text [script], the address rewrite switched by
    [optimized], and collaborators answering as [answers] says. *)
Definition page (optimized : bool) (script : option string)
    (answers : call → outcome value) : World := {|
  URL_pathname := Sample.plain_pathname;
  JSON_parse := λ _, None;
  jsonLdScript := script;
  metadata := ∅;
  PRODUCT_FRAGMENT := "fragment PRODUCT_FRAGMENT on ProductView { sku }";
  isAemAssetsEnabled := optimized;
  respond := answers;
|}.

(** The catalog service is unreachable. *)
Definition offline : World :=
  page false None
    (λ c, match c with
          | FetchGraphQl _ _ _ => Throw (Rejected (VStr "Failed to fetch"))
          | _ => Ret VUndefined
          end).

(** The address rewrite is enabled and answers with a delivery address. *)
Definition optimizing : World :=
  page true None
    (λ c, match c with
          | TryGenerateAemAssetsOptimizedUrl _ _ => Ret (VStr "//delivery/a.jpg")
          | _ => Ret VUndefined
          end).

(** The image component fails to render. *)
Definition unrenderable : World :=
  page false None
    (λ c, match c with
          | UIRender _ => Throw (Rejected (VStr "render failed"))
          | _ => Ret VUndefined
          end).

(** The address rewrite is enabled and fails. *)
Definition unrewritable : World :=
  page true None
    (λ c, match c with
          | TryGenerateAemAssetsOptimizedUrl _ _ =>
              Throw (Rejected (VStr "rewrite failed"))
          | _ => Ret VUndefined
          end).


(** A product whose second video is [null]. *)
Definition with_null_video : gmap string value :=
  <["videos" := VArr [Sample.demo_video; VNull]]> ∅.

(** A product whose images field is [null], and one whose images field is an
    object. *)
Definition with_null_images : gmap string value :=
  <["videos" := VArr [Sample.demo_video]]> (<["images" := VNull]> ∅).

Definition with_object_images : gmap string value :=
  <["videos" := VArr [Sample.demo_video]]> (<["images" := VObj ∅]> ∅).

(** A product whose first image has a number for address. *)
Definition with_numeric_url : value :=
  VObj (<["images" := VArr [VObj (<["url" := VNum 5]> ∅)]]> ∅).

End Scenario.

(* ===================================================================== *)
(** * Running the definitions *)
(* ===================================================================== *)

Example split_path : split "/" "/1156860195" = [""; "1156860195"].
Proof. reflexivity. Qed.

Example split_empty : split "/" "" = [""].
Proof. reflexivity. Qed.

Example strip_http : strip_scheme "http://x/a.jpg" = "//x/a.jpg".
Proof. reflexivity. Qed.

Example strip_https : strip_scheme "https://x/a.jpg" = "//x/a.jpg".
Proof. reflexivity. Qed.

Example strip_none : strip_scheme "//x/a.jpg" = "//x/a.jpg".
Proof. reflexivity. Qed.

Example embed_share_link :
  toVimeoEmbedUrl Sample.blank (VStr "https://vimeo.com/1156860195?share=copy")
  = (Ret (VStr "https://player.vimeo.com/video/1156860195"), []).
Proof. reflexivity. Qed.

Example embed_player_link :
  toVimeoEmbedUrl Sample.blank (VStr "https://player.vimeo.com/video/1156860195")
  = (Ret (VStr "https://player.vimeo.com/video/1156860195"), []).
Proof. reflexivity. Qed.

Example embed_malformed :
  toVimeoEmbedUrl Sample.blank (VStr "not a url")
  = (Ret (VStr "not a url"),
     [Console Warn "Failed to parse Vimeo URL:" [VStr "not a url"] (Some TypeError)]).
Proof. reflexivity. Qed.

Example embed_null :
  toVimeoEmbedUrl Sample.blank VNull
  = (Ret VNull, [Console Warn "Failed to parse Vimeo URL:" [VNull] (Some TypeError)]).
Proof. reflexivity. Qed.

(* ===================================================================== *)
(** * The monad *)
(* ===================================================================== *)

Lemma bind_ret_l {A B} (a : A) (k : A → M B) : (mret a ≫= k) = k a.
Proof. unfold mret, mbind, M_ret, M_bind, bind, ret. by destruct (k a). Qed.

Lemma bind_Ret {A B} (a : A) evs (k : A → M B) :
  ((Ret a, evs) : M A) ≫= k = (outcome_of (k a), evs ++ events_of (k a)).
Proof. unfold mbind, M_bind, bind. by destruct (k a). Qed.

Lemma bind_Throw {A B} e evs (k : A → M B) :
  ((Throw e, evs) : M A) ≫= k = (Throw e, evs).
Proof. done. Qed.

Lemma outcome_of_bind {A B} (m : M A) (k : A → M B) :
  outcome_of (m ≫= k)
  = match outcome_of m with Ret a => outcome_of (k a) | Throw e => Throw e end.
Proof.
  destruct m as [[a|e] evs]; [|done].
  unfold mbind, M_bind, bind. simpl. by destruct (k a).
Qed.

Lemma events_of_bind {A B} (m : M A) (k : A → M B) :
  events_of (m ≫= k)
  = events_of m ++ match outcome_of m with Ret a => events_of (k a) | Throw _ => [] end.
Proof.
  destruct m as [[a|e] evs]; simpl.
  - unfold mbind, M_bind, bind. by destruct (k a).
  - by rewrite app_nil_r.
Qed.

Lemma outcome_of_mret {A} (a : A) : outcome_of (mret a : M A) = Ret a.
Proof. done. Qed.

Lemma events_of_mret {A} (a : A) : events_of (mret a : M A) = [].
Proof. done. Qed.

(** A callback that always completes maps the whole array. *)
Lemma array_map_outcome (f : value → M value) (g : value → value) (l : list value) :
  Forall (λ x, outcome_of (f x) = Ret (g x)) l →
  outcome_of (array_map f l) = Ret (g <$> l).
Proof.
  induction 1 as [|x l Hx _ IH]; simpl; [done|].
  by rewrite outcome_of_bind, Hx, outcome_of_bind, IH.
Qed.

Lemma prop_obj (m : gmap string value) (name : string) :
  prop (VObj m) name = default VUndefined (m !! name).
Proof. done. Qed.

Lemma opt_prop_obj (m : gmap string value) (name : string) :
  opt_prop (VObj m) name = default VUndefined (m !! name).
Proof. done. Qed.

Lemma call_map_outcome (f : value → M value) (g : value → value) (l : list value) :
  Forall (λ x, outcome_of (f x) = Ret (g x)) l →
  outcome_of (call_map (VArr l) f) = Ret (VArr (g <$> l)).
Proof.
  intros H. unfold call_map.
  by rewrite outcome_of_bind, (array_map_outcome f g).
Qed.

Lemma member_present (v : value) (name : string) :
  present v → member v name = mret (prop v name).
Proof. unfold present, member. by intros ->. Qed.


(* ===================================================================== *)
(** * Path segments *)
(* ===================================================================== *)

Section Segments.

Lemma app_String (c : ascii) (s t : string) :
  String c s +:+ t = String c (s +:+ t).
Proof. reflexivity. Qed.

Lemma app_empty (t : string) : "" +:+ t = t.
Proof. reflexivity. Qed.

Lemma slash_eqb (c : ascii) : Ascii.eqb c "/" = true ↔ c = "/"%char.
Proof. apply Ascii.eqb_eq. Qed.

Lemma slash_neqb (c : ascii) : Ascii.eqb c "/" = false ↔ c ≠ "/"%char.
Proof. apply Ascii.eqb_neq. Qed.

Lemma nonempty_true (s : string) : nonempty s = true ↔ s ≠ "".
Proof.
  unfold nonempty. destruct s; simpl; split; intros; congruence.
Qed.

(** [split] starts with the text before the first slash. *)
Lemma split_segment (s : string) : ∃ t, split "/" s = segment s :: t.
Proof.
  induction s as [|c s [t IH]]; simpl.
  - by eexists.
  - destruct (Ascii.eqb c "/"); [by eexists|].
    rewrite IH. by eexists.
Qed.

(** [path.split('/').filter(Boolean)[0]] is the computed first segment. *)
Lemma head_filter_split (p : string) :
  head (filter nonempty (split "/" p)) = first_segment_of p.
Proof.
  unfold first_segment_of.
  induction p as [|c p IH]; simpl; [done|].
  destruct (Ascii.eqb c "/") eqn:Hc.
  - rewrite filter_cons_False; [done|]. simpl. tauto.
  - destruct (split_segment p) as [t ->].
    rewrite filter_cons_True by done. simpl. by rewrite Hc.
Qed.

Lemma skip_slashes (k : nat) (s : string) : skip (slashes k +:+ s) = skip s.
Proof. induction k as [|k IH]; [done|]. rewrite <- IH. done. Qed.

Lemma leading_skip (p : string) : p = slashes (leading p) +:+ skip p.
Proof.
  induction p as [|c p IH]; simpl; [done|].
  destruct (Ascii.eqb c "/") eqn:Hc; simpl; [|done].
  apply slash_eqb in Hc as ->. by rewrite app_String, <- IH.
Qed.

Lemma segment_after (s : string) : s = segment s +:+ after_segment s.
Proof.
  induction s as [|c s IH]; simpl; [done|].
  destruct (Ascii.eqb c "/"); simpl; [done|]. by rewrite app_String, <- IH.
Qed.

Lemma after_segment_shape (s : string) :
  after_segment s = "" ∨ ∃ r, after_segment s = String "/" r.
Proof.
  induction s as [|c s IH]; simpl; [by left|].
  destruct (Ascii.eqb c "/") eqn:Hc; [|done].
  apply slash_eqb in Hc as ->. right. by eexists.
Qed.

Lemma segment_no_slash (s : string) : no_slash (segment s).
Proof.
  unfold no_slash. induction s as [|c s IH]; simpl; [constructor|].
  destruct (Ascii.eqb c "/") eqn:Hc; simpl; [constructor|].
  constructor; [by apply slash_neqb | done].
Qed.

Lemma segment_exact (id rest : string) :
  no_slash id → (rest = "" ∨ ∃ r, rest = String "/" r) →
  segment (id +:+ rest) = id.
Proof.
  unfold no_slash. intros Hid Hrest.
  induction id as [|c id IH]; simpl in *.
  - rewrite ?app_empty. destruct Hrest as [-> | [r ->]]; done.
  - inversion Hid as [|? ? Hc Hid']; subst.
    apply slash_neqb in Hc. rewrite ?app_String. simpl. rewrite Hc.
    f_equal. by apply IH.
Qed.

(** The declarative and the computed first segment agree. *)
Lemma FirstSegment_computed (p id : string) :
  FirstSegment p id ↔ first_segment_of p = Some id.
Proof.
  unfold first_segment_of. split.
  - intros (k & rest & -> & Hne & Hid & Hrest).
    rewrite skip_slashes.
    destruct id as [|c id]; [done|].
    pose proof Hid as Hid'. unfold no_slash in Hid'. simpl in Hid'.
    inversion Hid' as [|? ? Hc _]; subst.
    apply slash_neqb in Hc.
    change (String c id +:+ rest) with (String c (id +:+ rest)).
    simpl skip. rewrite Hc. simpl nonempty. cbv iota. f_equal.
    by apply (segment_exact (String c id) rest).
  - destruct (nonempty (skip p)) eqn:Hn; [|done].
    intros [= <-].
    exists (leading p), (after_segment (skip p)). repeat split.
    + rewrite <- segment_after. apply leading_skip.
    + apply nonempty_true in Hn.
      clear -Hn. induction p as [|c p IH]; simpl in *; [done|].
      destruct (Ascii.eqb c "/") eqn:Hc; [by apply IH|].
      simpl. by rewrite Hc.
    + apply segment_no_slash.
    + apply after_segment_shape.
Qed.

Lemma FirstSegment_unique (p id id' : string) :
  FirstSegment p id → FirstSegment p id' → id = id'.
Proof.
  rewrite !FirstSegment_computed. congruence.
Qed.

End Segments.

(* ===================================================================== *)
(** * The digit test *)
(* ===================================================================== *)

Section Digits.

Lemma is_digit_Digit (c : ascii) : is_digit c = true ↔ Digit c.
Proof.
  unfold Digit. split.
  - destruct c as [[] [] [] [] [] [] [] []]; intros H;
      first [discriminate H | repeat constructor].
  - rewrite !elem_of_cons, elem_of_nil.
    intros H. repeat destruct H as [-> | H]; first [reflexivity | contradiction].
Qed.

Lemma forallb_digits (l : list ascii) :
  forallb is_digit l = true ↔ Forall Digit l.
Proof.
  induction l as [|c l IH]; simpl.
  - split; [constructor | done].
  - rewrite andb_true_iff, IH, is_digit_Digit, Forall_cons. done.
Qed.

(** [/^\d+$/] accepts exactly the non-negative integer strings. *)
Lemma all_digits_Numeric (s : string) : all_digits s = true ↔ Numeric s.
Proof.
  unfold all_digits, Numeric.
  rewrite andb_true_iff, nonempty_true, forallb_digits. done.
Qed.

Lemma Digit_not_slash (c : ascii) : Digit c → c ≠ "/"%char.
Proof. intros H%is_digit_Digit ->. discriminate H. Qed.

Lemma Numeric_no_slash (s : string) : Numeric s → no_slash s.
Proof.
  intros [_ H]. unfold no_slash.
  eapply Forall_impl; [exact H|]. apply Digit_not_slash.
Qed.

End Digits.

(* ===================================================================== *)
(** * toVimeoEmbedUrl *)
(* ===================================================================== *)

Section Normalizer.
Variable w : World.

(** The function performs what [normalized] and [warnings] describe, and
    completes normally on every value. *)
Lemma toVimeoEmbedUrl_run (url : value) :
  toVimeoEmbedUrl w url = (Ret (normalized w url), warnings w url).
Proof.
  unfold toVimeoEmbedUrl, new_URL_pathname, normalized, warnings.
  destruct (URL_pathname w url) as [p|]; [|reflexivity].
  rewrite bind_ret_l, head_filter_split.
  destruct (first_segment_of p) as [id|]; [|reflexivity].
  unfold all_digits.
  destruct (nonempty id); simpl; [|reflexivity].
  destruct (forallb is_digit (list_ascii_of_string id)); reflexivity.
Qed.

Lemma normalized_numeric (s p id : string) :
  URL_pathname w (VStr s) = Some p → FirstSegment p id → Numeric id →
  normalized w (VStr s) = VStr (player_prefix +:+ id).
Proof.
  intros Hp Hseg%FirstSegment_computed Hnum%all_digits_Numeric.
  unfold normalized. by rewrite Hp, Hseg, Hnum.
Qed.

Lemma normalized_other (s : string) :
  ¬ (∃ p id, URL_pathname w (VStr s) = Some p ∧ FirstSegment p id ∧ Numeric id) →
  normalized w (VStr s) = VStr s.
Proof.
  intros Hno. unfold normalized.
  destruct (URL_pathname w (VStr s)) as [p|] eqn:Hp; [|done].
  destruct (first_segment_of p) as [id|] eqn:Hseg; [|done].
  destruct (all_digits id) eqn:Hnum; [|done].
  exfalso. apply Hno. exists p, id.
  by rewrite FirstSegment_computed, <- all_digits_Numeric.
Qed.

Lemma normalized_string (s : string) : ∃ r, normalized w (VStr s) = VStr r.
Proof.
  unfold normalized.
  destruct (URL_pathname w (VStr s)) as [p|]; [|by eexists].
  destruct (first_segment_of p) as [id|]; [|by eexists].
  destruct (all_digits id); by eexists.
Qed.

End Normalizer.

Section NormalizerTheorems.

Lemma player_path_segment (id : string) :
  first_segment_of ("/video/" +:+ id) = Some "video".
Proof. reflexivity. Qed.

(** An address that is already a player address is left alone. *)
Lemma normalized_player (w : World) (id : string) :
  parses_player_urls w → Numeric id →
  normalized w (VStr (player_prefix +:+ id)) = VStr (player_prefix +:+ id).
Proof.
  intros Hw Hid. unfold normalized.
  by rewrite (Hw id Hid), player_path_segment.
Qed.

Lemma normalized_cases (w : World) (url : value) :
  normalized w url = url ∨
  ∃ id, Numeric id ∧ normalized w url = VStr (player_prefix +:+ id).
Proof.
  unfold normalized.
  destruct (URL_pathname w url) as [p|]; [|by left].
  destruct (first_segment_of p) as [id|]; [|by left].
  destruct (all_digits id) eqn:Hid; [|by left].
  right. exists id. by rewrite <- all_digits_Numeric.
Qed.

Lemma normalized_idempotent (w : World) (url : value) :
  parses_player_urls w →
  normalized w (normalized w url) = normalized w url.
Proof.
  intros Hw. destruct (normalized_cases w url) as [H | (id & Hid & ->)].
  - by rewrite !H.
  - by apply normalized_player.
Qed.

Lemma digits_pass_path (s : string) :
  Forall Digit (list_ascii_of_string s) →
  Sample.take_until Sample.stops_path s = s.
Proof.
  induction s as [|c s IH]; simpl; [done|].
  intros [Hc Hs]%Forall_cons.
  replace (Sample.stops_path c) with false; [by rewrite IH|].
  unfold Digit in Hc. rewrite !elem_of_cons, elem_of_nil in Hc.
  repeat destruct Hc as [-> | Hc]; first [reflexivity | contradiction].
Qed.

Lemma blank_parses_player_urls : parses_player_urls Sample.blank.
Proof.
  intros id [_ Hid]. simpl.
  change (player_prefix +:+ id)
    with ("https://" +:+ "player.vimeo.com" +:+ "/video/" +:+ id).
  unfold Sample.plain_pathname. simpl.
  by rewrite digits_pass_path.
Qed.

End NormalizerTheorems.

(* ===================================================================== *)
(** * The transformer *)
(* ===================================================================== *)

Section Transformer.
Variable w : World.

Lemma toVimeoEmbedUrl_outcome (url : value) :
  outcome_of (toVimeoEmbedUrl w url) = Ret (normalized w url).
Proof. by rewrite toVimeoEmbedUrl_run. Qed.

Lemma videoAsImage_outcome (v : value) :
  present v → outcome_of (videoAsImage w v) = Ret (video_as_image w v).
Proof.
  intros Hv. unfold videoAsImage.
  rewrite !member_present by done.
  rewrite bind_ret_l, outcome_of_bind, toVimeoEmbedUrl_outcome, bind_ret_l.
  done.
Qed.

Lemma videoEntry_outcome (v : value) :
  present v → outcome_of (videoEntry w v) = Ret (video_entry w v).
Proof.
  intros Hv. unfold videoEntry.
  rewrite !member_present by done.
  rewrite bind_ret_l, outcome_of_bind, toVimeoEmbedUrl_outcome, !bind_ret_l.
  unfold video_entry.
  destruct (to_boolean (prop v "preview")) eqn:Hp.
  - rewrite member_present; [done|].
    unfold present. by destruct (prop v "preview").
  - done.
Qed.

Lemma has_videos_length (videos : list value) :
  (0 < length videos)%nat →
  to_boolean (opt_prop (VArr videos) "length") = true.
Proof. destruct videos; simpl; [lia | done]. Qed.

Lemma has_images_or_else (m : gmap string value) (images : list value) :
  has_images m images →
  or_else (default VUndefined (m !! "images")) (VArr []) = VArr images.
Proof. intros [H | [H ->]]; by rewrite H. Qed.

(** The record built for a product with videos. *)
Lemma transformer_outcome (m : gmap string value) (videos images : list value) :
  m !! "videos" = Some (VArr videos) →
  (0 < length videos)%nat →
  Forall present videos →
  has_images m images →
  outcome_of (transformer w (VObj m))
  = Ret (VObj (<["images" := VArr ((video_as_image w <$> videos) ++ images)]>
              (<["videos" := VArr (video_entry w <$> videos)]> m))).
Proof.
  intros Hvideos Hlen Hpresent Himages. unfold transformer.
  rewrite outcome_of_bind. simpl outcome_of at 1. cbv iota.
  rewrite opt_prop_obj, Hvideos. simpl default.
  rewrite has_videos_length by done. simpl negb. cbv iota.
  rewrite !member_present by done.
  rewrite bind_ret_l.
  rewrite !prop_obj, Hvideos.
  change (default VUndefined (Some (VArr videos))) with (VArr videos).
  rewrite outcome_of_bind, (call_map_outcome _ (video_as_image w)); last first.
  { eapply Forall_impl; [exact Hpresent|]. apply videoAsImage_outcome. }
  rewrite bind_ret_l.
  rewrite outcome_of_bind, (call_map_outcome _ (video_entry w)); last first.
  { eapply Forall_impl; [exact Hpresent|]. apply videoEntry_outcome. }
  simpl spread_iter. rewrite !bind_ret_l.
  rewrite (has_images_or_else m images) by done.
  simpl spread_iter. rewrite bind_ret_l. done.
Qed.

End Transformer.

Example transform_scenario :
  outcome_of (transformer Sample.blank (VObj Sample.with_video))
  = Ret (VObj
      (<["sku" := VStr "ABC123"]>
      (<["videos" := VArr [VObj
           (<["url" := VStr "https://player.vimeo.com/video/1156860195"]>
           (<["title" := VStr "Demo"]>
           (<["preview" := VNull]> ∅)))]]>
      (<["images" := VArr [VObj
           (<["url" := VStr "https://player.vimeo.com/video/1156860195"]>
           (<["label" := VStr "Demo"]>
           (<["width" := VNum 640]>
           (<["height" := VNum 360]>
           (<["isVideo" := VBool true]> ∅)))));
           Sample.demo_image]]> ∅)))).
Proof. vm_compute. reflexivity. Qed.

Section TransformerTheorems.
Variable w : World.

Lemma gallery_of_app (videos images : list value) :
  gallery_of w videos images ((video_as_image w <$> videos) ++ images).
Proof.
  repeat split.
  - by rewrite length_app, length_fmap.
  - intros i v Hi. rewrite lookup_app_l.
    + by rewrite list_lookup_fmap, Hi.
    + rewrite length_fmap. by eapply lookup_lt_Some.
  - intros j x Hj.
    rewrite lookup_app_r; rewrite length_fmap; [|lia].
    by replace (length videos + j - length videos)%nat with j by lia.
Qed.

(** C1. For a product record with N >= 1 videos and M original images (M = 0
    when the images field is absent), the transformer returns a record whose
    images sequence has length N + M; its first N entries are the entries
    derived from the videos, in the order of the videos, each of the shape
    url: the normalized address, label: the title or 'Product Video',
    width: 640, height: 360, isVideo: true; its last M entries are the
    original images, unchanged and in their order. *)
Theorem transformer_prepends_videos
    (m : gmap string value) (videos images : list value) :
  m !! "videos" = Some (VArr videos) →
  (1 ≤ length videos)%nat →
  Forall present videos →
  has_images m images →
  ∃ out gallery,
    outcome_of (transformer w (VObj m)) = Ret (VObj out) ∧
    out !! "images" = Some (VArr gallery) ∧
    gallery_of w videos images gallery.
Proof.
  intros Hvideos Hlen Hpresent Himages.
  eexists _, _. split; [|split].
  - by apply (transformer_outcome w m videos images).
  - by rewrite lookup_insert_eq.
  - apply gallery_of_app.
Qed.

(** C7. For a product record with at least one video, every field of the
    transformer's output other than images and videos equals the field of
    the same name of the input. *)
Theorem transformer_keeps_other_fields
    (m : gmap string value) (videos images : list value) :
  m !! "videos" = Some (VArr videos) →
  (1 ≤ length videos)%nat →
  Forall present videos →
  has_images m images →
  ∃ out,
    outcome_of (transformer w (VObj m)) = Ret (VObj out) ∧
    ∀ field, field ≠ "images" → field ≠ "videos" → out !! field = m !! field.
Proof.
  intros Hvideos Hlen Hpresent Himages.
  eexists. split.
  - by apply (transformer_outcome w m videos images).
  - intros field Hi Hv. by rewrite !lookup_insert_ne.
Qed.

(** The early return, for any argument. *)
Lemma transformer_no_videos (rawData : value) :
  to_boolean (opt_prop (opt_prop rawData "videos") "length") = false →
  transformer w rawData = (Ret rawData, [Console Log "rawData" [rawData] None]).
Proof. intros H. unfold transformer. by rewrite H. Qed.

(** C3. For a product record whose videos field is absent or an empty
    sequence, the transformer returns its argument itself; nothing is
    rebuilt, and the call only logs its argument. *)
Theorem transformer_passthrough (m : gmap string value) :
  m !! "videos" = None ∨ m !! "videos" = Some (VArr []) →
  transformer w (VObj m) = (Ret (VObj m), [Console Log "rawData" [VObj m] None]).
Proof.
  intros H. apply transformer_no_videos.
  rewrite opt_prop_obj. by destruct H as [-> | ->].
Qed.

End TransformerTheorems.

Lemma transformer_prepends_videos_witness :
  ∃ out gallery,
    outcome_of (transformer Sample.blank (VObj Sample.with_video)) = Ret (VObj out) ∧
    out !! "images" = Some (VArr gallery) ∧
    gallery_of Sample.blank [Sample.demo_video] [Sample.demo_image] gallery.
Proof.
  apply (transformer_prepends_videos Sample.blank Sample.with_video
           [Sample.demo_video] [Sample.demo_image]).
  - reflexivity.
  - simpl. lia.
  - repeat constructor.
  - left. reflexivity.
Defined.

Lemma transformer_keeps_other_fields_witness :
  ∃ out,
    outcome_of (transformer Sample.blank (VObj Sample.with_video)) = Ret (VObj out) ∧
    ∀ field, field ≠ "images" → field ≠ "videos" →
      out !! field = Sample.with_video !! field.
Proof.
  apply (transformer_keeps_other_fields Sample.blank Sample.with_video
           [Sample.demo_video] [Sample.demo_image]).
  - reflexivity.
  - simpl. lia.
  - repeat constructor.
  - left. reflexivity.
Defined.

Lemma transformer_passthrough_witness :
  transformer Sample.blank (VObj Sample.without_video)
  = (Ret (VObj Sample.without_video),
     [Console Log "rawData" [VObj Sample.without_video] None]).
Proof.
  apply (transformer_passthrough Sample.blank Sample.without_video).
  right. reflexivity.
Defined.

(* ===================================================================== *)
(** * The normalizer's claims *)
(* ===================================================================== *)

(** C2. For every input string: when the string parses as a URL and the
    first non-empty segment of its path is a non-negative integer string,
    the normalizer returns exactly https://player.vimeo.com/video/<segment>;
    for every other input, a string that fails to parse included, it
    returns the input string unchanged. *)
Theorem toVimeoEmbedUrl_contract (w : World) (s : string) :
  (∀ p id,
     URL_pathname w (VStr s) = Some p → FirstSegment p id → Numeric id →
     outcome_of (toVimeoEmbedUrl w (VStr s))
     = Ret (VStr ("https://player.vimeo.com/video/" +:+ id)))
  ∧
  (¬ (∃ p id, URL_pathname w (VStr s) = Some p ∧ FirstSegment p id ∧ Numeric id) →
     outcome_of (toVimeoEmbedUrl w (VStr s)) = Ret (VStr s)).
Proof.
  rewrite toVimeoEmbedUrl_run. simpl outcome_of. split.
  - intros p id Hp Hseg Hnum. f_equal. by eapply normalized_numeric.
  - intros Hno. f_equal. by apply normalized_other.
Qed.

Lemma toVimeoEmbedUrl_contract_witness :
  outcome_of (toVimeoEmbedUrl Sample.blank
                (VStr "https://vimeo.com/1156860195?share=copy"))
  = Ret (VStr "https://player.vimeo.com/video/1156860195")
  ∧
  outcome_of (toVimeoEmbedUrl Sample.blank (VStr "https://vimeo.com/channels/staff"))
  = Ret (VStr "https://vimeo.com/channels/staff").
Proof.
  split.
  - apply (proj1 (toVimeoEmbedUrl_contract Sample.blank
                    "https://vimeo.com/1156860195?share=copy")
             "/1156860195" "1156860195").
    + reflexivity.
    + exists 1%nat, "". repeat split; [discriminate | repeat constructor; discriminate | by left].
    + split; [discriminate | repeat constructor].
  - apply (proj2 (toVimeoEmbedUrl_contract Sample.blank
                    "https://vimeo.com/channels/staff")).
    intros (p & id & Hp & Hseg & Hnum).
    injection Hp as <-.
    apply FirstSegment_computed in Hseg. injection Hseg as <-.
    apply all_digits_Numeric in Hnum. discriminate Hnum.
Defined.

(** C8. The normalizer never throws: for every input string it completes
    and returns a string; when the string fails to parse as a URL, the
    failure is caught, one warning is logged, and the original string is
    returned. *)
Theorem toVimeoEmbedUrl_never_throws (w : World) (s : string) :
  (∃ r evs, toVimeoEmbedUrl w (VStr s) = (Ret (VStr r), evs))
  ∧
  (URL_pathname w (VStr s) = None →
     toVimeoEmbedUrl w (VStr s)
     = (Ret (VStr s),
        [Console Warn "Failed to parse Vimeo URL:" [VStr s] (Some TypeError)])).
Proof.
  rewrite toVimeoEmbedUrl_run. split.
  - destruct (normalized_string w s) as [r ->]. by eexists _, _.
  - intros Hp. unfold normalized, warnings. by rewrite Hp.
Qed.

Lemma toVimeoEmbedUrl_never_throws_witness :
  toVimeoEmbedUrl Sample.blank (VStr "not a url")
  = (Ret (VStr "not a url"),
     [Console Warn "Failed to parse Vimeo URL:" [VStr "not a url"] (Some TypeError)]).
Proof.
  apply (proj2 (toVimeoEmbedUrl_never_throws Sample.blank "not a url")).
  reflexivity.
Defined.

(** C10. The normalizer is idempotent: normalizing the result of a
    normalization returns that result; in particular an address already of
    the form https://player.vimeo.com/video/<id> is returned unchanged, its
    first non-empty path segment being 'video'.  The URL parser is assumed
    to read player addresses as the URL standard prescribes. *)
Theorem toVimeoEmbedUrl_idempotent (w : World) (u : string) :
  parses_player_urls w →
  (∃ v, outcome_of (toVimeoEmbedUrl w (VStr u)) = Ret v ∧
        outcome_of (toVimeoEmbedUrl w v) = Ret v)
  ∧
  (∀ id, Numeric id →
     outcome_of (toVimeoEmbedUrl w (VStr ("https://player.vimeo.com/video/" +:+ id)))
     = Ret (VStr ("https://player.vimeo.com/video/" +:+ id))).
Proof.
  intros Hw. split.
  - exists (normalized w (VStr u)).
    rewrite !toVimeoEmbedUrl_run. simpl. split; [done|].
    f_equal. by apply normalized_idempotent.
  - intros id Hid. rewrite toVimeoEmbedUrl_run. simpl. f_equal.
    by apply normalized_player.
Qed.

Lemma toVimeoEmbedUrl_idempotent_witness :
  (∃ v, outcome_of (toVimeoEmbedUrl Sample.blank
                      (VStr "https://vimeo.com/1156860195?share=copy")) = Ret v ∧
        outcome_of (toVimeoEmbedUrl Sample.blank v) = Ret v)
  ∧
  outcome_of (toVimeoEmbedUrl Sample.blank
                (VStr "https://player.vimeo.com/video/1156860195"))
  = Ret (VStr "https://player.vimeo.com/video/1156860195").
Proof.
  destruct (toVimeoEmbedUrl_idempotent Sample.blank
              "https://vimeo.com/1156860195?share=copy"
              blank_parses_player_urls) as [Hfirst Hplayer].
  split; [exact Hfirst|].
  apply (Hplayer "1156860195").
  split; [discriminate | repeat constructor].
Defined.

(* ===================================================================== *)
(** * The image preload middleware *)
(* ===================================================================== *)

Section Middleware.
Variable w : World.

Lemma first_image_url_present (data : value) (s : string) :
  first_image_url data = VStr s → present data.
Proof. unfold first_image_url, present. by destruct data. Qed.

Lemma invoke_completes (c : call) :
  completes w c → ∃ v, invoke w c = (Ret v, [Called c]).
Proof. intros [v Hv]. exists v. unfold invoke. by rewrite Hv. Qed.

(** C9. The image preload middleware returns its input unchanged.  When
    the first image has an address to preload, its only effect is the eager
    render of one image (after the address rewrite, when that feature is
    enabled); when there is none it does nothing at all.  The address of an
    image is taken to be a string, and the rewrite and the render to
    complete. *)
Theorem preloadImageMiddleware_returns_input (data : value) :
  image_url_is_text data →
  (∀ image sku, completes w (TryGenerateAemAssetsOptimizedUrl image sku)) →
  (∀ props, completes w (UIRender props)) →
  outcome_of (preloadImageMiddleware w data) = Ret data
  ∧ (preload_target data = "" → events_of (preloadImageMiddleware w data) = [])
  ∧ (preload_target data ≠ "" →
       ∃ props,
         prop props "loading" = VStr "eager" ∧
         events_of (preloadImageMiddleware w data)
         = (if isAemAssetsEnabled w
            then [Called (TryGenerateAemAssetsOptimizedUrl
                            (VStr (preload_target data)) (prop data "sku"))]
            else [])
           ++ [Called (UIRender props)]).
Proof.
  intros Htext Hrewrite Hrender.
  unfold preloadImageMiddleware, preload_target.
  fold (first_image_url data).
  destruct Htext as [Hu | [Hu | [s Hu]]]; rewrite Hu; simpl is_nullish; cbv iota.
  - split; [done | split; [done | by intros []]].
  - split; [done | split; [done | by intros []]].
  - unfold call_replace_scheme. rewrite bind_ret_l.
    simpl to_boolean.
    destruct (String.eqb (strip_scheme s) "") eqn:He; simpl negb; cbv iota.
    + apply String.eqb_eq in He.
      split; [done | split; [done | by rewrite He]].
    + apply String.eqb_neq in He.
      pose proof (first_image_url_present data s Hu) as Hdata.
      destruct (isAemAssetsEnabled w).
      * rewrite member_present by done. rewrite bind_ret_l.
        destruct (invoke_completes _
                    (Hrewrite (VStr (strip_scheme s)) (prop data "sku")))
          as [u ->].
        rewrite bind_Ret, outcome_of_mret, events_of_mret, bind_Ret.
        match goal with |- context [invoke w (UIRender ?p)] =>
          destruct (invoke_completes _ (Hrender p)) as [r Hr]; rewrite Hr;
          set (props := p) end.
        split; [done | split; [done |]].
        intros _. exists props. split; [|done].
        unfold props. by rewrite prop_obj, lookup_insert_eq.
      * rewrite bind_ret_l.
        match goal with |- context [invoke w (UIRender ?p)] =>
          destruct (invoke_completes _ (Hrender p)) as [r Hr]; rewrite Hr;
          set (props := p) end.
        split; [done | split; [done |]].
        intros _. exists props. split; [|done].
        unfold props. by rewrite prop_obj, lookup_insert_eq.
Qed.

(** Whatever the collaborators do, a result of the middleware is its
    input. *)
Lemma preloadImageMiddleware_result_is_input (data result : value) :
  outcome_of (preloadImageMiddleware w data) = Ret result → result = data.
Proof.
  unfold preloadImageMiddleware.
  rewrite outcome_of_bind.
  destruct (outcome_of _) as [image|]; [|done].
  rewrite outcome_of_bind.
  destruct (outcome_of _); [|done].
  rewrite outcome_of_mret. by intros [= <-].
Qed.

End Middleware.

Lemma preloadImageMiddleware_returns_input_witness :
  outcome_of (preloadImageMiddleware Sample.blank (VObj Sample.with_video))
  = Ret (VObj Sample.with_video)
  ∧ (preload_target (VObj Sample.with_video) = "" →
     events_of (preloadImageMiddleware Sample.blank (VObj Sample.with_video)) = [])
  ∧ (preload_target (VObj Sample.with_video) ≠ "" →
       ∃ props,
         prop props "loading" = VStr "eager" ∧
         events_of (preloadImageMiddleware Sample.blank (VObj Sample.with_video))
         = (if isAemAssetsEnabled Sample.blank
            then [Called (TryGenerateAemAssetsOptimizedUrl
                            (VStr (preload_target (VObj Sample.with_video)))
                            (prop (VObj Sample.with_video) "sku"))]
            else [])
           ++ [Called (UIRender props)]).
Proof.
  apply (preloadImageMiddleware_returns_input Sample.blank (VObj Sample.with_video)).
  - right. right. exists "http://x/a.jpg". reflexivity.
  - intros image sku. exists VUndefined. reflexivity.
  - intros props. exists VUndefined. reflexivity.
Defined.

Example preload_scenario :
  preloadImageMiddleware Sample.blank (VObj Sample.with_video)
  = (Ret (VObj Sample.with_video),
     [Called (UIRender (VObj
        (<["src" := VStr "//x/a.jpg"]>
        (<["params" := VObj (<["width" := VNum 960]> (<["height" := VNum 1191]> ∅))]>
        (<["loading" := VStr "eager"]> ∅)))))]).
Proof. vm_compute. reflexivity. Qed.

Example preload_nothing :
  preloadImageMiddleware Sample.blank VNull = (Ret VNull, []).
Proof. reflexivity. Qed.

(* ===================================================================== *)
(** * The main image extractor *)
(* ===================================================================== *)

Section Extractor.
Variable w : World.

Lemma metadataImage_usable : metadataImage w = usable_metadata_image w.
Proof.
  unfold metadataImage, usable_metadata_image, getMetadata, or_else.
  destruct (metadata w !! "og:image") as [og|]; simpl.
  - unfold nonempty. by destruct (String.eqb og "").
  - by destruct (metadata w !! "image").
Qed.

(** The test of the source on the parsed block is the conjunction of
    "declares a product" and "has a truthy image". *)
Lemma trusts_block (jsonLd : value) :
  strict_eq_str (opt_prop jsonLd "@type") "Product"
    && to_boolean (opt_prop jsonLd "image")
  = declares_product jsonLd
    && match image_field jsonLd with Some i => to_boolean i | None => false end.
Proof.
  destruct jsonLd as [| | | | s | l | m]; try done.
  rewrite !opt_prop_obj. simpl.
  destruct (m !! "@type") as [[]|]; destruct (m !! "image"); simpl;
    rewrite ?andb_false_r; done.
Qed.

Lemma trusted_block_image (jsonLd : value) :
  declares_product jsonLd = true →
  member jsonLd "image" = mret (default VUndefined (image_field jsonLd)).
Proof. destruct jsonLd; done. Qed.

Lemma extractMainImageUrl_outcome :
  outcome_of (extractMainImageUrl w)
  = Ret (default (usable_metadata_image w) (trusted_jsonLd_image w)).
Proof.
  unfold extractMainImageUrl, trusted_jsonLd_image, stated_jsonLd_image, jsonLd_of.
  rewrite metadataImage_usable.
  destruct (jsonLdScript w) as [text|]; [|done].
  simpl to_boolean. fold (nonempty text). simpl.
  destruct (nonempty text); simpl; [|done].
  unfold JSON_parse_text.
  destruct (JSON_parse w text) as [jsonLd|]; simpl; [|done].
  rewrite trusts_block.
  destruct (declares_product jsonLd) eqn:Hp; simpl; [|done].
  rewrite trusted_block_image by done.
  destruct (image_field jsonLd) as [image|]; simpl; [|done].
  by destruct (to_boolean image).
Qed.

End Extractor.

(** C5 as stated fails: for a JSON-LD product block whose image field is
    the empty string, the extractor returns the og:image value, where the
    statement has it return the (empty) JSON-LD image. *)
Lemma extractMainImageUrl_stated_fails :
  stated_main_image Sample.empty_image = VStr ""
  ∧ outcome_of (extractMainImageUrl Sample.empty_image) = Ret (VStr "http://x/og.jpg")
  ∧ outcome_of (extractMainImageUrl Sample.empty_image)
    ≠ Ret (stated_main_image Sample.empty_image).
Proof.
  split; [reflexivity | split; [reflexivity |]].
  vm_compute. discriminate.
Qed.

(** C5, amended. The extractor returns the JSON-LD image value exactly when
    a JSON-LD element with content is present, its content parses as JSON,
    its '@type' is 'Product', and its image field is truthy; in every other
    case it returns the og:image metadata value if present and not empty,
    else the image metadata value if present, else null. *)
Theorem extractMainImageUrl_result (w : World) :
  outcome_of (extractMainImageUrl w)
  = Ret (match trusted_jsonLd_image w with
         | Some image => image
         | None => usable_metadata_image w
         end).
Proof.
  rewrite extractMainImageUrl_outcome. by destruct (trusted_jsonLd_image w).
Qed.

Example extract_product_page :
  extractMainImageUrl (Sample.product_page "http://x/hero.jpg")
  = (Ret (VStr "http://x/hero.jpg"), []).
Proof. reflexivity. Qed.

Example extract_blank : extractMainImageUrl Sample.blank = (Ret VNull, []).
Proof. reflexivity. Qed.

(* ===================================================================== *)
(** * The product fetcher *)
(* ===================================================================== *)

Section Fetcher.
Variable w : World.

Lemma FirstProduct_read (response : value) (p : gmap string value) :
  FirstProduct response p →
  present response ∧
  opt_index (opt_prop (prop response "data") "products") 0 = VObj p.
Proof.
  intros (r & d & others & -> & Hd & Hp). split; [done|].
  rewrite prop_obj, Hd. simpl default. by rewrite opt_prop_obj, Hp.
Qed.

Lemma NoProduct_read (response : value) :
  NoProduct response →
  present response ∧
  to_boolean (opt_index (opt_prop (prop response "data") "products") 0) = false.
Proof.
  intros (r & -> & H). split; [done|]. rewrite prop_obj.
  destruct H as [-> | [-> | (d & -> & H)]]; [done | done |].
  simpl default. rewrite opt_prop_obj.
  destruct H as [-> | [-> | [-> | [others ->]]]]; done.
Qed.

Lemma bag_uids (options : value) :
  is_bag options →
  member (match options with VUndefined => VObj ∅ | _ => options end) "optionsUIDs"
  = mret (default VUndefined (supplied_uids options))
  ∨ supplied_uids options = None ∧
    ∃ uids, to_boolean uids = false ∧
      member (match options with VUndefined => VObj ∅ | _ => options end) "optionsUIDs"
      = mret uids.
Proof.
  intros [-> | [o ->]].
  - left. reflexivity.
  - unfold supplied_uids, member. simpl is_nullish. cbv iota.
    rewrite prop_obj.
    destruct (o !! "optionsUIDs") as [uids|]; [|by left].
    simpl default. destruct (to_boolean uids) eqn:Hu; [by left|].
    right. split; [done|]. by exists uids.
Qed.

(** C6. For every SKU and options bag, once the GraphQL request is
    answered: the fetcher returns null when the response holds no product;
    otherwise it returns the first product record of the response, with the
    supplied option UIDs attached under optionUIDs, and as it is, with no
    field attached, when none were supplied. *)
Theorem fetchProductDataWithVideos_result (sku options response : value) :
  respond w (FetchGraphQl (PRODUCT_QUERY_WITH_VIDEOS w) "GET" [sku]) = Ret response →
  is_bag options →
  (NoProduct response →
     outcome_of (fetchProductDataWithVideos w sku options) = Ret VNull)
  ∧
  (∀ p, FirstProduct response p →
     outcome_of (fetchProductDataWithVideos w sku options)
     = Ret (VObj match supplied_uids options with
                 | Some uids => <["optionUIDs" := uids]> p
                 | None => p
                 end)).
Proof.
  intros Hresponse Hbag. unfold fetchProductDataWithVideos, invoke.
  rewrite Hresponse, bind_Ret. simpl outcome_of. split.
  - intros [Hpresent Hnone]%NoProduct_read.
    rewrite (member_present response) by done. rewrite bind_ret_l. by rewrite Hnone.
  - intros p [Hpresent Hfirst]%FirstProduct_read.
    rewrite (member_present response) by done. rewrite bind_ret_l, Hfirst.
    simpl to_boolean. simpl negb. cbv iota.
    destruct (bag_uids options Hbag) as [-> | (Hnone & uids & Hfalse & ->)].
    + rewrite bind_ret_l.
      destruct (supplied_uids options) as [uids|] eqn:Hs; simpl default.
      * replace (to_boolean uids) with true; [done|].
        unfold supplied_uids in Hs.
        destruct options as [| | | | | |o]; try done.
        destruct (o !! "optionsUIDs") as [u|]; [|done].
        destruct (to_boolean u) eqn:Hu; [|done]. by injection Hs as <-.
      * done.
    + by rewrite bind_ret_l, Hfalse, Hnone.
Qed.

End Fetcher.

Lemma fetchProductDataWithVideos_result_witness :
  outcome_of (fetchProductDataWithVideos (Sample.catalog (VObj Sample.with_video))
                (VStr "ABC123")
                (VObj (<["optionsUIDs" := VArr [VStr "Y29uZmlndXJhYmxlLzkzLzUw"]]> ∅)))
  = Ret (VObj (<["optionUIDs" := VArr [VStr "Y29uZmlndXJhYmxlLzkzLzUw"]]>
                 Sample.with_video))
  ∧
  outcome_of (fetchProductDataWithVideos (Sample.catalog VNull)
                (VStr "ABC123") VUndefined)
  = Ret VNull.
Proof.
  split.
  - refine (proj2 (fetchProductDataWithVideos_result
                     (Sample.catalog (VObj Sample.with_video)) (VStr "ABC123")
                     (VObj (<["optionsUIDs" := VArr [VStr "Y29uZmlndXJhYmxlLzkzLzUw"]]> ∅))
                     _ eq_refl (or_intror (ex_intro _ _ eq_refl)))
             Sample.with_video _).
    eexists _, _, []. repeat split; reflexivity.
  - refine (proj1 (fetchProductDataWithVideos_result
                     (Sample.catalog VNull) (VStr "ABC123") VUndefined
                     _ eq_refl (or_introl eq_refl)) _).
    eexists. split; [reflexivity|].
    right. right. eexists. split; [reflexivity|].
    right. right. right. by exists [].
Defined.

Example fetch_found :
  outcome_of (fetchProductDataWithVideos (Sample.catalog (VObj Sample.with_video))
                (VStr "ABC123") (VObj (<["optionsUIDs" := VUndefined]> ∅)))
  = Ret (VObj Sample.with_video).
Proof. reflexivity. Qed.

(* ===================================================================== *)
(** * The callback *)
(* ===================================================================== *)

Section Callback.
Variable w : World.

Lemma quiet_ret {A} (a : A) : quiet (mret a : M A).
Proof. constructor. Qed.

Lemma quiet_throw {A} (e : exn) : quiet (throw e : M A).
Proof. constructor. Qed.

Lemma quiet_bind {A B} (m : M A) (k : A → M B) :
  quiet m → (∀ a, quiet (k a)) → quiet (m ≫= k).
Proof.
  unfold quiet. intros Hm Hk. rewrite events_of_bind.
  apply Forall_app. split; [done|].
  destruct (outcome_of m); [apply Hk | constructor].
Qed.

Lemma quiet_try_catch {A} (body : M A) (handler : exn → M A) :
  quiet body → (∀ e, quiet (handler e)) → quiet (try_catch body handler).
Proof.
  unfold quiet, try_catch. intros Hb Hh.
  destruct body as [[a|e] evs]; [done|].
  specialize (Hh e). destruct (handler e) as [o evs']. simpl in *.
  apply Forall_app. done.
Qed.

Lemma quiet_promise_all2 {A B} (a : M A) (b : M B) :
  quiet a → quiet b → quiet (promise_all2 a b).
Proof.
  unfold quiet, promise_all2. destruct a as [oa ea], b as [ob eb]. simpl.
  intros Ha Hb. apply Forall_app. done.
Qed.

Lemma quiet_invoke (c : call) :
  terminal (Called c) = false → quiet (invoke w c).
Proof. intros H. repeat constructor. done. Qed.

Lemma outcome_of_invoke (c : call) : outcome_of (invoke w c) = respond w c.
Proof. done. Qed.

Lemma events_of_invoke (c : call) : events_of (invoke w c) = [Called c].
Proof. done. Qed.

Lemma quiet_console lv label args err : quiet (console lv label args err).
Proof. repeat constructor. Qed.

Ltac quiet_step :=
  first
    [ apply quiet_ret
    | apply quiet_throw
    | apply quiet_console
    | apply quiet_invoke; reflexivity
    | apply quiet_bind; [|intros ?]
    | apply quiet_try_catch; [|intros ?]
    | apply quiet_promise_all2
    | match goal with
      | |- quiet (if ?b then _ else _) => destruct b
      | |- quiet (match ?x with _ => _ end) => destruct x
      end ].

Lemma quiet_extractMainImageUrl : quiet (extractMainImageUrl w).
Proof.
  unfold extractMainImageUrl, JSON_parse_text, member. repeat quiet_step.
Qed.

Lemma quiet_preloadPDPAssets : quiet (preloadPDPAssets w).
Proof.
  unfold preloadPDPAssets, preloadFile.
  repeat first [apply quiet_extractMainImageUrl | quiet_step].
Qed.

Lemma quiet_fetchProductDataWithVideos (sku options : value) :
  quiet (fetchProductDataWithVideos w sku options).
Proof.
  unfold fetchProductDataWithVideos, member, assign_prop. repeat quiet_step.
Qed.

Lemma quiet_preloadImageMiddleware (data : value) :
  quiet (preloadImageMiddleware w data).
Proof.
  unfold preloadImageMiddleware, call_replace_scheme, member. repeat quiet_step.
Qed.

Lemma quiet_fetchAll (sku uids : value) : quiet (fetchAll w sku uids).
Proof.
  unfold fetchAll.
  repeat first [ apply quiet_fetchProductDataWithVideos
               | apply quiet_preloadImageMiddleware
               | quiet_step ].
Qed.

(** The events of the callback: a quiet prefix, then the hand-off. *)
Lemma initCallback_events (sku uids product labels : value) :
  fetched w sku uids product labels →
  ∃ before,
    Forall (λ ev, terminal ev = false) before ∧
    events_of (initCallback w)
    = before ++ events_of (handOff w sku uids product labels).
Proof.
  intros [[e He] Hassets Hsku Huids Hdata].
  exists ([Called SetEndpoint] ++ events_of (preloadPDPAssets w)
          ++ [Called GetProductSku] ++ [Called GetOptionsUIDsFromUrl]
          ++ events_of (fetchAll w sku uids)).
  split.
  - repeat (apply Forall_app; split); try (repeat constructor; done).
    + apply quiet_preloadPDPAssets.
    + apply quiet_fetchAll.
  - unfold initCallback.
    rewrite events_of_bind, events_of_invoke, outcome_of_invoke, He.
    cbv beta iota.
    rewrite events_of_bind, Hassets. cbv beta iota.
    rewrite events_of_bind, events_of_invoke, outcome_of_invoke, Hsku.
    cbv beta iota.
    rewrite events_of_bind, events_of_invoke, outcome_of_invoke, Huids.
    cbv beta iota.
    rewrite events_of_bind, Hdata. cbv beta iota. simpl fst. simpl snd.
    by rewrite <- !app_assoc.
Qed.

Lemma handOff_lacks_sku (sku uids product labels : value) :
  lacks_sku product →
  events_of (handOff w sku uids product labels)
  = [Console Log "product" [product] None; Called LoadErrorPage].
Proof.
  intros H. unfold handOff.
  replace (to_boolean (opt_prop product "sku")) with false; [done|].
  destruct H as [-> | (m & -> & H)]; [done|].
  rewrite opt_prop_obj. by destruct H as [-> | [-> | ->]].
Qed.

Lemma handOff_has_sku (sku uids product labels : value) :
  has_sku product →
  ∃ cfg,
    events_of (handOff w sku uids product labels)
    = [Console Log "product" [product] None; Called (MountImmediately cfg)].
Proof.
  intros (m & s & -> & Hs & Hne). unfold handOff.
  replace (to_boolean (opt_prop (VObj m) "sku")) with true; [by eexists|].
  rewrite opt_prop_obj, Hs. simpl. by destruct s.
Qed.


End Callback.

(** C4. In the callback, once the fetch has yielded the product: when the
    product is absent (null) or lacks a SKU, the error page redirect is
    invoked and the mount is never called; when the product is present with
    a non-empty SKU, the mount is invoked and the error page redirect is
    not. *)
Theorem initCallback_redirects_or_mounts
    (w : World) (sku uids product labels : value) :
  fetched w sku uids product labels →
  (lacks_sku product →
     Called LoadErrorPage ∈ events_of (initCallback w) ∧
     ∀ cfg, Called (MountImmediately cfg) ∉ events_of (initCallback w))
  ∧
  (has_sku product →
     (∃ cfg, Called (MountImmediately cfg) ∈ events_of (initCallback w)) ∧
     Called LoadErrorPage ∉ events_of (initCallback w)).
Proof.
  intros Hfetched.
  destruct (initCallback_events w sku uids product labels Hfetched)
    as (before & Hquiet & ->).
  assert (Hbefore : ∀ ev, terminal ev = true → ev ∉ before).
  { intros ev Hev Hin. rewrite Forall_forall in Hquiet.
    specialize (Hquiet ev Hin). congruence. }
  split.
  - intros Hlacks. rewrite (handOff_lacks_sku w) by done. split.
    + rewrite elem_of_app, !elem_of_cons. auto.
    + intros cfg [Hin | Hin]%elem_of_app.
      * by apply (Hbefore (Called (MountImmediately cfg)) eq_refl) in Hin.
      * rewrite !elem_of_cons, elem_of_nil in Hin.
        destruct Hin as [? | [? | []]]; discriminate.
  - intros Hhas.
    destruct (handOff_has_sku w sku uids product labels Hhas) as [cfg ->].
    split.
    + exists cfg. rewrite elem_of_app, !elem_of_cons. auto.
    + intros [Hin | Hin]%elem_of_app.
      * by apply (Hbefore (Called LoadErrorPage) eq_refl) in Hin.
      * rewrite !elem_of_cons, elem_of_nil in Hin.
        destruct Hin as [? | [? | []]]; discriminate.
Qed.

Lemma catalog_null_fetched :
  fetched (Sample.catalog VNull) (VStr "ABC123") VUndefined VNull VUndefined.
Proof. split; first [reflexivity | by exists VUndefined]. Qed.

Lemma catalog_video_fetched :
  fetched (Sample.catalog (VObj Sample.with_video))
    (VStr "ABC123") VUndefined (VObj Sample.with_video) VUndefined.
Proof. split; first [reflexivity | by exists VUndefined]. Qed.

Lemma initCallback_redirects_or_mounts_witness :
  (Called LoadErrorPage ∈ events_of (initCallback (Sample.catalog VNull)) ∧
   ∀ cfg, Called (MountImmediately cfg) ∉ events_of (initCallback (Sample.catalog VNull)))
  ∧
  ((∃ cfg, Called (MountImmediately cfg)
           ∈ events_of (initCallback (Sample.catalog (VObj Sample.with_video)))) ∧
   Called LoadErrorPage
   ∉ events_of (initCallback (Sample.catalog (VObj Sample.with_video)))).
Proof.
  split.
  - apply (proj1 (initCallback_redirects_or_mounts (Sample.catalog VNull)
                    (VStr "ABC123") VUndefined VNull VUndefined
                    catalog_null_fetched)).
    left. reflexivity.
  - apply (proj2 (initCallback_redirects_or_mounts
                    (Sample.catalog (VObj Sample.with_video))
                    (VStr "ABC123") VUndefined (VObj Sample.with_video) VUndefined
                    catalog_video_fetched)).
    exists Sample.with_video, "ABC123".
    split; [reflexivity | split; [reflexivity | discriminate]].
Defined.

Example callback_null_product :
  events_of (initCallback (Sample.catalog VNull))
  = [Called SetEndpoint]
    ++ ((λ href, Called (PreloadFile (VStr href) "script")) <$>
      [ "/scripts/__dropins__/storefront-pdp/api.js";
        "/scripts/__dropins__/storefront-pdp/render.js";
        "/scripts/__dropins__/storefront-pdp/containers/ProductHeader.js";
        "/scripts/__dropins__/storefront-pdp/containers/ProductPrice.js";
        "/scripts/__dropins__/storefront-pdp/containers/ProductShortDescription.js";
        "/scripts/__dropins__/storefront-pdp/containers/ProductOptions.js";
        "/scripts/__dropins__/storefront-pdp/containers/ProductQuantity.js";
        "/scripts/__dropins__/storefront-pdp/containers/ProductDescription.js";
        "/scripts/__dropins__/storefront-pdp/containers/ProductAttributes.js";
        "/scripts/__dropins__/storefront-pdp/containers/ProductGallery.js" ])
    ++ [ Console Warn "Unable to infer main image from JSON-LD or meta tags" [] None;
         Called GetProductSku;
         Called GetOptionsUIDsFromUrl;
         Called (FetchGraphQl (PRODUCT_QUERY_WITH_VIDEOS (Sample.catalog VNull))
                   "GET" [VStr "ABC123"]);
         Called (FetchPlaceholders "placeholders/pdp.json");
         Console Log "product" [VNull] None;
         Called LoadErrorPage ].
Proof. reflexivity. Qed.

(* ===================================================================== *)
(** * Further behaviour: the events of a computation *)
(* ===================================================================== *)

Section AllEvents.
Context (P : event → Prop).

Lemma all_events_ret {A} (a : A) : all_events P (mret a : M A).
Proof. constructor. Qed.

Lemma all_events_throw {A} (e : exn) : all_events P (throw e : M A).
Proof. constructor. Qed.

Lemma all_events_bind {A B} (m : M A) (k : A → M B) :
  all_events P m → (∀ a, all_events P (k a)) → all_events P (m ≫= k).
Proof.
  unfold all_events. intros Hm Hk. rewrite events_of_bind.
  apply Forall_app. split; [done|].
  destruct (outcome_of m); [apply Hk | constructor].
Qed.

Lemma all_events_member (v : value) (name : string) :
  all_events P (member v name).
Proof. unfold member. destruct (is_nullish v); constructor. Qed.

Lemma all_events_spread_iter (v : value) : all_events P (spread_iter v).
Proof. destruct v; constructor. Qed.

Lemma all_events_array_map (f : value → M value) (l : list value) :
  (∀ x, all_events P (f x)) → all_events P (array_map f l).
Proof.
  intros Hf. induction l as [|x l IH]; simpl.
  - apply all_events_ret.
  - apply all_events_bind; [done|]. intros y.
    apply all_events_bind; [done|]. intros ys. apply all_events_ret.
Qed.

Lemma all_events_call_map (receiver : value) (f : value → M value) :
  (∀ x, all_events P (f x)) → all_events P (call_map receiver f).
Proof.
  intros Hf. destruct receiver; try apply all_events_throw.
  apply all_events_bind; [by apply all_events_array_map|].
  intros out. apply all_events_ret.
Qed.

End AllEvents.

(* ===================================================================== *)
(** * Further behaviour: the transformer *)
(* ===================================================================== *)

Section TransformerBehaviour.
Variable w : World.

Lemma transformer_outcome_with (m : gmap string value) (videos images : list value) :
  m !! "videos" = Some (VArr videos) →
  (0 < length videos)%nat →
  Forall present videos →
  or_else (default VUndefined (m !! "images")) (VArr []) = VArr images →
  outcome_of (transformer w (VObj m))
  = Ret (VObj (<["images" := VArr ((video_as_image w <$> videos) ++ images)]>
              (<["videos" := VArr (video_entry w <$> videos)]> m))).
Proof.
  intros Hvideos Hlen Hpresent Himages. unfold transformer.
  rewrite outcome_of_bind. simpl outcome_of at 1. cbv iota.
  rewrite opt_prop_obj, Hvideos. simpl default.
  rewrite has_videos_length by done. simpl negb. cbv iota.
  rewrite !member_present by done.
  rewrite bind_ret_l.
  rewrite !prop_obj, Hvideos.
  change (default VUndefined (Some (VArr videos))) with (VArr videos).
  rewrite outcome_of_bind, (call_map_outcome _ (video_as_image w)); last first.
  { eapply Forall_impl; [exact Hpresent|]. apply videoAsImage_outcome. }
  rewrite bind_ret_l.
  rewrite outcome_of_bind, (call_map_outcome _ (video_entry w)); last first.
  { eapply Forall_impl; [exact Hpresent|]. apply videoEntry_outcome. }
  simpl spread_iter. rewrite !bind_ret_l.
  rewrite Himages. simpl spread_iter. rewrite bind_ret_l. done.
Qed.

(** X1. For a product record with at least one video, the videos of the
    output are the videos of the input, in their order, each rewritten to
    the three fields url (the normalized address), title (as it was) and
    preview (only its url when the video has a preview, null otherwise). *)
Theorem transformer_rewrites_videos
    (m : gmap string value) (videos images : list value) :
  m !! "videos" = Some (VArr videos) →
  (1 ≤ length videos)%nat →
  Forall present videos →
  has_images m images →
  ∃ out,
    outcome_of (transformer w (VObj m)) = Ret (VObj out) ∧
    out !! "videos" = Some (VArr (video_entry w <$> videos)).
Proof.
  intros Hvideos Hlen Hpresent Himages. eexists. split.
  - apply (transformer_outcome_with m videos images); try done.
    by apply has_images_or_else.
  - by rewrite lookup_insert_ne, lookup_insert_eq.
Qed.

Lemma videoAsImage_nullish (v : value) :
  is_nullish v = true → outcome_of (videoAsImage w v) = Throw TypeError.
Proof. intros H. unfold videoAsImage, member. by rewrite H. Qed.

Lemma array_map_nullish (l : list value) :
  Exists (λ v, is_nullish v = true) l →
  outcome_of (array_map (videoAsImage w) l) = Throw TypeError.
Proof.
  induction l as [|x l IH]; intros Hex; [by apply Exists_nil in Hex|].
  simpl. rewrite outcome_of_bind.
  destruct (is_nullish x) eqn:Hx.
  - by rewrite videoAsImage_nullish.
  - rewrite videoAsImage_outcome by done.
    apply Exists_cons in Hex as [Hex | Hex]; [congruence|].
    by rewrite outcome_of_bind, IH.
Qed.

(** X2. A [null] or [undefined] entry among the videos makes the
    transformer throw a TypeError: no record is produced. *)
Theorem transformer_null_video_throws
    (m : gmap string value) (videos : list value) :
  m !! "videos" = Some (VArr videos) →
  Exists (λ v, is_nullish v = true) videos →
  outcome_of (transformer w (VObj m)) = Throw TypeError.
Proof.
  intros Hvideos Hex. unfold transformer.
  rewrite outcome_of_bind. simpl outcome_of at 1. cbv iota.
  rewrite opt_prop_obj, Hvideos. simpl default.
  rewrite has_videos_length; last first.
  { destruct videos; [by apply Exists_nil in Hex | simpl; lia]. }
  simpl negb. cbv iota.
  rewrite !member_present by done. rewrite bind_ret_l.
  rewrite !prop_obj, Hvideos.
  change (default VUndefined (Some (VArr videos))) with (VArr videos).
  rewrite outcome_of_bind. unfold call_map at 1.
  by rewrite outcome_of_bind, array_map_nullish.
Qed.

(** X3. A falsy images field (null, false, 0, the empty string) counts as
    no images: the images of the output are the entries derived from the
    videos and nothing else. *)
Theorem transformer_falsy_images
    (m : gmap string value) (videos : list value) (images : value) :
  m !! "videos" = Some (VArr videos) →
  (1 ≤ length videos)%nat →
  Forall present videos →
  m !! "images" = Some images →
  to_boolean images = false →
  ∃ out,
    outcome_of (transformer w (VObj m)) = Ret (VObj out) ∧
    out !! "images" = Some (VArr (video_as_image w <$> videos)).
Proof.
  intros Hvideos Hlen Hpresent Himages Hfalsy. eexists. split.
  - apply (transformer_outcome_with m videos []); try done.
    rewrite Himages. unfold or_else. simpl default. by rewrite Hfalsy.
  - by rewrite lookup_insert_eq, app_nil_r.
Qed.

(** X4. A truthy images field that is neither an array nor a string (an
    object, a number, true) cannot be spread: the transformer throws a
    TypeError. *)
Theorem transformer_images_not_iterable
    (m : gmap string value) (videos : list value) (images : value) :
  m !! "videos" = Some (VArr videos) →
  (1 ≤ length videos)%nat →
  Forall present videos →
  m !! "images" = Some images →
  to_boolean images = true →
  not_iterable images →
  outcome_of (transformer w (VObj m)) = Throw TypeError.
Proof.
  intros Hvideos Hlen Hpresent Himages Htruthy Hnot. unfold transformer.
  rewrite outcome_of_bind. simpl outcome_of at 1. cbv iota.
  rewrite opt_prop_obj, Hvideos. simpl default.
  rewrite has_videos_length by done. simpl negb. cbv iota.
  rewrite !member_present by done.
  rewrite bind_ret_l.
  rewrite !prop_obj, Hvideos, Himages.
  change (default VUndefined (Some (VArr videos))) with (VArr videos).
  rewrite outcome_of_bind, (call_map_outcome _ (video_as_image w)); last first.
  { eapply Forall_impl; [exact Hpresent|]. apply videoAsImage_outcome. }
  rewrite bind_ret_l.
  rewrite outcome_of_bind, (call_map_outcome _ (video_entry w)); last first.
  { eapply Forall_impl; [exact Hpresent|]. apply videoEntry_outcome. }
  simpl spread_iter. rewrite !bind_ret_l.
  unfold or_else. simpl default. rewrite Htruthy.
  destruct images; done.
Qed.

End TransformerBehaviour.

Section TransformerEvents.
Variable w : World.

Lemma toVimeoEmbedUrl_warns_only (url : value) :
  all_events parse_warning (toVimeoEmbedUrl w url).
Proof.
  unfold all_events. rewrite toVimeoEmbedUrl_run. unfold warnings. simpl.
  destruct (URL_pathname w url); repeat constructor. by exists url.
Qed.

Lemma videoAsImage_warns_only (v : value) :
  all_events parse_warning (videoAsImage w v).
Proof.
  unfold videoAsImage.
  apply all_events_bind; [apply all_events_member | intros vurl].
  apply all_events_bind; [apply toVimeoEmbedUrl_warns_only | intros url].
  apply all_events_bind; [apply all_events_member | intros title].
  apply all_events_ret.
Qed.

Lemma videoEntry_warns_only (v : value) :
  all_events parse_warning (videoEntry w v).
Proof.
  unfold videoEntry.
  apply all_events_bind; [apply all_events_member | intros vurl].
  apply all_events_bind; [apply toVimeoEmbedUrl_warns_only | intros url].
  apply all_events_bind; [apply all_events_member | intros title].
  apply all_events_bind; [apply all_events_member | intros preview].
  apply all_events_bind; [|intros previewOut; apply all_events_ret].
  destruct (to_boolean preview); [|apply all_events_ret].
  apply all_events_bind; [apply all_events_member | intros purl].
  apply all_events_ret.
Qed.

(** X5. Whatever its argument, the transformer calls no collaborator: it
    logs its argument once, first, and every other event is a warning of
    the normalizer about an address that does not parse. *)
Theorem transformer_only_logs (rawData : value) :
  ∃ rest,
    events_of (transformer w rawData)
    = Console Log "rawData" [rawData] None :: rest ∧
    Forall parse_warning rest.
Proof.
  unfold transformer. rewrite events_of_bind. simpl outcome_of. cbv iota.
  eexists. split; [reflexivity|].
  match goal with |- Forall _ (events_of ?m) => change (all_events parse_warning m) end.
  destruct (negb _); [apply all_events_ret|].
  apply all_events_bind; [apply all_events_member | intros videos].
  apply all_events_bind;
    [apply all_events_call_map, videoAsImage_warns_only | intros videoAsImages].
  apply all_events_bind; [apply all_events_member | intros videos'].
  apply all_events_bind;
    [apply all_events_call_map, videoEntry_warns_only | intros videosOut].
  apply all_events_bind; [apply all_events_spread_iter | intros front].
  apply all_events_bind; [apply all_events_member | intros images].
  apply all_events_bind; [apply all_events_spread_iter | intros back].
  apply all_events_ret.
Qed.

(** X6. The transformer is not idempotent: applied to its own output, it
    derives the gallery entries of the videos a second time, so that a
    product with N videos and M images ends with 2N + M images. *)
Theorem transformer_twice_duplicates
    (m : gmap string value) (videos images : list value) :
  m !! "videos" = Some (VArr videos) →
  (1 ≤ length videos)%nat →
  Forall present videos →
  has_images m images →
  ∃ once twice gallery,
    outcome_of (transformer w (VObj m)) = Ret (VObj once) ∧
    outcome_of (transformer w (VObj once)) = Ret (VObj twice) ∧
    twice !! "images" = Some (VArr gallery) ∧
    length gallery = (2 * length videos + length images)%nat.
Proof.
  intros Hvideos Hlen Hpresent Himages.
  eexists _, _, _. split; [|split; [|split]].
  - by apply (transformer_outcome w m videos images).
  - apply (transformer_outcome_with w _ (video_entry w <$> videos)
             ((video_as_image w <$> videos) ++ images)).
    + by rewrite lookup_insert_ne, lookup_insert_eq.
    + by rewrite length_fmap.
    + apply Forall_fmap, Forall_forall. by intros v _.
    + by rewrite lookup_insert_eq.
  - by rewrite lookup_insert_eq.
  - rewrite !length_app, !length_fmap. lia.
Qed.

(** X7. An argument that is not an object (null, undefined, a primitive,
    an array) is returned as it is; the transformer does not throw on
    it. *)
Theorem transformer_non_object_passthrough (rawData : value) :
  not_object rawData →
  transformer w rawData = (Ret rawData, [Console Log "rawData" [rawData] None]).
Proof.
  intros H. apply transformer_no_videos. by destruct rawData.
Qed.

End TransformerEvents.

Lemma transformer_rewrites_videos_witness :
  ∃ out,
    outcome_of (transformer Sample.blank (VObj Sample.with_video)) = Ret (VObj out) ∧
    out !! "videos" = Some (VArr (video_entry Sample.blank <$> [Sample.demo_video])).
Proof.
  apply (transformer_rewrites_videos Sample.blank Sample.with_video
           [Sample.demo_video] [Sample.demo_image]).
  - reflexivity.
  - simpl. lia.
  - repeat constructor.
  - left. reflexivity.
Defined.

Lemma transformer_null_video_throws_witness :
  outcome_of (transformer Sample.blank (VObj Scenario.with_null_video))
  = Throw TypeError.
Proof.
  apply (transformer_null_video_throws Sample.blank Scenario.with_null_video
           [Sample.demo_video; VNull]).
  - reflexivity.
  - apply Exists_cons_tl, Exists_cons_hd. reflexivity.
Defined.

Lemma transformer_falsy_images_witness :
  ∃ out,
    outcome_of (transformer Sample.blank (VObj Scenario.with_null_images))
    = Ret (VObj out) ∧
    out !! "images" = Some (VArr (video_as_image Sample.blank <$> [Sample.demo_video])).
Proof.
  apply (transformer_falsy_images Sample.blank Scenario.with_null_images
           [Sample.demo_video] VNull).
  - reflexivity.
  - simpl. lia.
  - repeat constructor.
  - reflexivity.
  - reflexivity.
Defined.

Lemma transformer_images_not_iterable_witness :
  outcome_of (transformer Sample.blank (VObj Scenario.with_object_images))
  = Throw TypeError.
Proof.
  apply (transformer_images_not_iterable Sample.blank Scenario.with_object_images
           [Sample.demo_video] (VObj ∅)).
  - reflexivity.
  - simpl. lia.
  - repeat constructor.
  - reflexivity.
  - reflexivity.
  - exact I.
Defined.

Lemma transformer_twice_duplicates_witness :
  ∃ once twice gallery,
    outcome_of (transformer Sample.blank (VObj Sample.with_video)) = Ret (VObj once) ∧
    outcome_of (transformer Sample.blank (VObj once)) = Ret (VObj twice) ∧
    twice !! "images" = Some (VArr gallery) ∧
    length gallery = (2 * length [Sample.demo_video] + length [Sample.demo_image])%nat.
Proof.
  apply (transformer_twice_duplicates Sample.blank Sample.with_video
           [Sample.demo_video] [Sample.demo_image]).
  - reflexivity.
  - simpl. lia.
  - repeat constructor.
  - left. reflexivity.
Defined.

Lemma transformer_non_object_passthrough_witness :
  transformer Sample.blank VNull
  = (Ret VNull, [Console Log "rawData" [VNull] None]).
Proof.
  apply (transformer_non_object_passthrough Sample.blank VNull). exact I.
Defined.

(* ===================================================================== *)
(** * Further behaviour: the normalizer, the fetcher, the preloads *)
(* ===================================================================== *)

Lemma no_events {A} (m : M A) : all_events (λ _, False) m → events_of m = [].
Proof.
  unfold all_events. destruct (events_of m) as [|ev evs]; [done|].
  intros H. by apply Forall_cons in H as [[] _].
Qed.

(** Sequencing, when the first computation completes. *)
Lemma seq_run {A B} (m : M A) (k : A → M B) a evs o evs' :
  m = (Ret a, evs) → k a = (o, evs') → m ≫= k = (o, evs ++ evs').
Proof. intros -> Hk. unfold mbind, M_bind, bind. by rewrite Hk. Qed.

Section MoreBehaviour.
Variable w : World.

(** X8. Whatever value it is given as address, a string or not (a video
    without url gives undefined), the normalizer completes; its result is
    that very value or a player address; it logs one warning when the value
    does not parse as a URL, and nothing otherwise. *)
Theorem toVimeoEmbedUrl_any_value (url : value) :
  ∃ result evs,
    toVimeoEmbedUrl w url = (Ret result, evs) ∧
    (result = url ∨
     ∃ id, Numeric id ∧ result = VStr ("https://player.vimeo.com/video/" +:+ id)) ∧
    (URL_pathname w url = None →
       result = url ∧
       evs = [Console Warn "Failed to parse Vimeo URL:" [url] (Some TypeError)]) ∧
    (is_Some (URL_pathname w url) → evs = []).
Proof.
  exists (normalized w url), (warnings w url).
  split; [apply toVimeoEmbedUrl_run|]. split; [apply normalized_cases|].
  unfold normalized, warnings. split.
  - by intros ->.
  - by intros [p ->].
Qed.

Lemma assign_prop_silent (target : value) (name : string) (x : value) :
  all_events (λ _, False) (assign_prop target name x).
Proof. destruct target; constructor. Qed.

Lemma fetchProductDataWithVideos_events (sku options : value) :
  events_of (fetchProductDataWithVideos w sku options)
  = [Called (product_request w sku)].
Proof.
  unfold fetchProductDataWithVideos.
  rewrite events_of_bind, events_of_invoke.
  destruct (outcome_of _) as [response|]; [|done].
  rewrite no_events; [done|].
  apply all_events_bind; [apply all_events_member | intros data].
  destruct (negb _); [apply all_events_ret|].
  apply all_events_bind; [apply all_events_member | intros uids].
  destruct (to_boolean uids); [apply assign_prop_silent | apply all_events_ret].
Qed.

(** X9. Whatever the SKU, the options and the answer, the fetcher performs
    exactly one call: the GraphQL request, by GET, for that one SKU.  It
    does not retry and calls nothing else. *)
Theorem fetchProductDataWithVideos_one_request (sku options : value) :
  events_of (fetchProductDataWithVideos w sku options)
  = [Called (FetchGraphQl (PRODUCT_QUERY_WITH_VIDEOS w) "GET" [sku])].
Proof. apply fetchProductDataWithVideos_events. Qed.

(** X10. The fetcher does not handle failures: a rejected GraphQL request
    is its own outcome, and an answer that is null or undefined makes it
    throw a TypeError. *)
Theorem fetchProductDataWithVideos_failures (sku options : value) :
  (∀ e, respond w (product_request w sku) = Throw e →
        outcome_of (fetchProductDataWithVideos w sku options) = Throw e)
  ∧
  (∀ response, respond w (product_request w sku) = Ret response →
        is_nullish response = true →
        outcome_of (fetchProductDataWithVideos w sku options) = Throw TypeError).
Proof.
  unfold product_request, fetchProductDataWithVideos. split.
  - intros e He. by rewrite outcome_of_bind, outcome_of_invoke, He.
  - intros response Hr Hnull.
    rewrite outcome_of_bind, outcome_of_invoke, Hr. cbv beta iota.
    rewrite outcome_of_bind. unfold member at 1. by rewrite Hnull.
Qed.

(** X11. The options are read only once a product is found: without a
    product the result is null whatever the options, null included, while
    with a product [null] options make the fetcher throw a TypeError. *)
Theorem fetchProductDataWithVideos_null_options (sku response : value) :
  respond w (product_request w sku) = Ret response →
  (NoProduct response →
     ∀ options, outcome_of (fetchProductDataWithVideos w sku options) = Ret VNull)
  ∧
  (∀ p, FirstProduct response p →
     outcome_of (fetchProductDataWithVideos w sku VNull) = Throw TypeError).
Proof.
  intros Hr. unfold product_request in Hr. unfold fetchProductDataWithVideos.
  split.
  - intros [Hpresent Hnone]%NoProduct_read options.
    rewrite outcome_of_bind, outcome_of_invoke, Hr. cbv beta iota.
    rewrite (member_present response) by done. by rewrite bind_ret_l, Hnone.
  - intros p [Hpresent Hfirst]%FirstProduct_read.
    rewrite outcome_of_bind, outcome_of_invoke, Hr. cbv beta iota.
    rewrite (member_present response) by done. by rewrite bind_ret_l, Hfirst.
Qed.


Lemma preloadFile_run (href : value) (kind : string) :
  completes w (PreloadFile href kind) →
  preloadFile w href kind = (Ret (), [Called (PreloadFile href kind)]).
Proof.
  intros [v Hv]. unfold preloadFile, invoke. by rewrite Hv.
Qed.

(** X13. When the preload hints are accepted, the asset preloader hints the
    ten script bundles, in their fixed order, then looks for the main
    image, and ends with one more hint, for that image, when it found one,
    and with a warning when it did not; it completes in both cases. *)
Theorem preloadPDPAssets_hints :
  (∀ href kind, completes w (PreloadFile href kind)) →
  preloadPDPAssets w
  = (Ret (),
     (script_hint <$> script_bundles)
     ++ events_of (extractMainImageUrl w)
     ++ (if to_boolean (default (usable_metadata_image w) (trusted_jsonLd_image w))
         then [Called (PreloadFile
                 (default (usable_metadata_image w) (trusted_jsonLd_image w))
                 "image")]
         else [Console Warn "Unable to infer main image from JSON-LD or meta tags"
                 [] None])).
Proof.
  intros Hhints. unfold preloadPDPAssets.
  etransitivity.
  { do 10 (eapply seq_run; [apply preloadFile_run, Hhints|]).
    eapply seq_run.
    - rewrite (surjective_pairing (extractMainImageUrl w)).
      change (extractMainImageUrl w).1 with (outcome_of (extractMainImageUrl w)).
      rewrite extractMainImageUrl_outcome. reflexivity.
    - destruct (to_boolean _) eqn:Htruthy.
      + rewrite preloadFile_run by apply Hhints.
        instantiate (1 := if to_boolean
                               (default (usable_metadata_image w)
                                  (trusted_jsonLd_image w))
                          then _ else _).
        rewrite Htruthy. reflexivity.
      + rewrite Htruthy. reflexivity. }
  reflexivity.
Qed.

End MoreBehaviour.

Lemma toVimeoEmbedUrl_any_value_witness :
  ∃ result evs,
    toVimeoEmbedUrl Sample.blank VNull = (Ret result, evs) ∧
    result = VNull ∧
    evs = [Console Warn "Failed to parse Vimeo URL:" [VNull] (Some TypeError)].
Proof.
  destruct (toVimeoEmbedUrl_any_value Sample.blank VNull)
    as (result & evs & Hrun & _ & Hfail & _).
  exists result, evs. split; [exact Hrun|]. apply Hfail. reflexivity.
Defined.

Lemma fetchProductDataWithVideos_failures_witness :
  outcome_of (fetchProductDataWithVideos Scenario.offline (VStr "ABC123") VUndefined)
  = Throw (Rejected (VStr "Failed to fetch"))
  ∧
  outcome_of (fetchProductDataWithVideos Sample.blank (VStr "ABC123") VUndefined)
  = Throw TypeError.
Proof.
  split.
  - apply (proj1 (fetchProductDataWithVideos_failures Scenario.offline
                    (VStr "ABC123") VUndefined)).
    reflexivity.
  - apply (proj2 (fetchProductDataWithVideos_failures Sample.blank
                    (VStr "ABC123") VUndefined) VUndefined); reflexivity.
Defined.

Lemma fetchProductDataWithVideos_null_options_witness :
  outcome_of (fetchProductDataWithVideos (Sample.catalog VNull) (VStr "ABC123") VNull)
  = Ret VNull
  ∧
  outcome_of (fetchProductDataWithVideos (Sample.catalog (VObj Sample.with_video))
                (VStr "ABC123") VNull)
  = Throw TypeError.
Proof.
  split.
  - refine (proj1 (fetchProductDataWithVideos_null_options (Sample.catalog VNull)
                     (VStr "ABC123") _ eq_refl) _ VNull).
    eexists. split; [reflexivity|].
    right. right. eexists. split; [reflexivity|].
    right. right. right. by exists [].
  - refine (proj2 (fetchProductDataWithVideos_null_options
                     (Sample.catalog (VObj Sample.with_video))
                     (VStr "ABC123") _ eq_refl) Sample.with_video _).
    eexists _, _, []. repeat split; reflexivity.
Defined.


Lemma preloadPDPAssets_hints_witness :
  preloadPDPAssets (Sample.product_page "http://x/hero.jpg")
  = (Ret (),
     (script_hint <$> script_bundles)
     ++ [Called (PreloadFile (VStr "http://x/hero.jpg") "image")]).
Proof.
  apply (preloadPDPAssets_hints (Sample.product_page "http://x/hero.jpg")).
  intros href kind. exists VUndefined. reflexivity.
Defined.

Example preload_without_image :
  preloadPDPAssets Sample.blank
  = (Ret (),
     (script_hint <$> script_bundles)
     ++ [Console Warn "Unable to infer main image from JSON-LD or meta tags" [] None]).
Proof. reflexivity. Qed.

(* ===================================================================== *)
(** * Further behaviour: the image preload middleware *)
(* ===================================================================== *)

Section SchemeStripping.

Lemma strip_prefix_Some (pre s rest : string) :
  strip_prefix pre s = Some rest → s = pre +:+ rest.
Proof.
  revert s. induction pre as [|a pre IH]; intros s; simpl.
  - by intros [= ->].
  - destruct s as [|b s]; [done|].
    destruct (Ascii.eqb a b) eqn:Hab; [|done].
    apply Ascii.eqb_eq in Hab as ->.
    intros H%IH. by rewrite H.
Qed.

(** X17. Stripping the scheme removes a leading [https:] or [http:] and
    nothing else: the result is what follows that prefix, and for every
    address the original is the result behind one of the prefixes [https:],
    [http:] or none.  The match is case sensitive and anchored: an address
    that does not start with [http] is left as it is. *)
Theorem strip_scheme_only_scheme (s rest : string) :
  strip_scheme ("https:" +:+ rest) = rest
  ∧ strip_scheme ("http:" +:+ rest) = rest
  ∧ (∃ pre, pre ∈ ["https:"; "http:"; ""] ∧ s = pre +:+ strip_scheme s)
  ∧ (String.prefix "http" s = false → strip_scheme s = s).
Proof.
  split; [reflexivity | split; [reflexivity | split]].
  - unfold strip_scheme.
    destruct (strip_prefix "https:" s) as [r|] eqn:Hs.
    { exists "https:". split; [by left | by apply strip_prefix_Some]. }
    destruct (strip_prefix "http:" s) as [r|] eqn:Hp.
    { exists "http:". split; [by right; left | by apply strip_prefix_Some]. }
    exists "". split; [by right; right; left | done].
  - intros Hpre. unfold strip_scheme.
    destruct (strip_prefix "https:" s) as [r|] eqn:Hs.
    { apply strip_prefix_Some in Hs. subst s. by vm_compute in Hpre. }
    destruct (strip_prefix "http:" s) as [r|] eqn:Hp; [|done].
    apply strip_prefix_Some in Hp. subst s. by vm_compute in Hpre.
Qed.

End SchemeStripping.

Section MiddlewareBehaviour.
Variable w : World.

Lemma middleware_opening (data : value) (s : string) :
  first_image_url data = VStr s →
  strip_scheme s ≠ "" →
  (if is_nullish (first_image_url data) then mret VUndefined
   else call_replace_scheme (first_image_url data))
  = mret (VStr (strip_scheme s))
  ∧ to_boolean (VStr (strip_scheme s)) = true.
Proof.
  intros Hu Hne. rewrite Hu. split; [done|].
  simpl. by apply String.eqb_neq in Hne as ->.
Qed.

Lemma built_props (src : value) (params : gmap string value) :
  VObj (<["loading" := VStr "eager"]>
       (<["params" := VObj params]>
       (own_props (prop (VObj IMAGES_SIZES) "mobile") ∪ <["src" := src]> ∅)))
  = render_props src params.
Proof. reflexivity. Qed.

Lemma built_cleared_params :
  <["auto" := VUndefined]> (<["fit" := VUndefined]> (<["crop" := VUndefined]> IMAGES_SIZES))
  = cleared_params.
Proof. reflexivity. Qed.

Lemma events_of_pair {A} (o : outcome A) (evs : list event) :
  events_of ((o, evs) : M A) = evs.
Proof. done. Qed.

Lemma outcome_of_pair {A} (o : outcome A) (evs : list event) :
  outcome_of ((o, evs) : M A) = o.
Proof. done. Qed.

Lemma invoke_answer (c : call) (v : value) :
  respond w c = Ret v → invoke w c = (Ret v, [Called c]).
Proof. intros H. unfold invoke. by rewrite H. Qed.

Lemma invoke_failure (c : call) (e : exn) :
  respond w c = Throw e → invoke w c = (Throw e, [Called c]).
Proof. intros H. unfold invoke. by rewrite H. Qed.

Lemma render_then_return (props data : value) :
  events_of ((invoke w (UIRender props);; mret ()) ≫= λ _ : (), mret data)
  = [Called (UIRender props)].
Proof.
  rewrite !events_of_bind, events_of_invoke, outcome_of_bind, outcome_of_invoke.
  by destruct (respond w _).
Qed.

(** X14. What the middleware renders, when the first image has an address
    to preload.  With the address rewrite disabled: the image with the
    address without its scheme, the sizes 960 x 1191, eager loading.  With
    the rewrite enabled: the rewriter is asked for that address and the
    product's SKU, and the image is rendered with its answer, the same
    sizes and the cropping parameters crop, fit and auto cleared. *)
Theorem preloadImageMiddleware_renders (data : value) (s : string) :
  first_image_url data = VStr s →
  strip_scheme s ≠ "" →
  (isAemAssetsEnabled w = false →
     events_of (preloadImageMiddleware w data)
     = [Called (UIRender (render_props (VStr (strip_scheme s)) plain_params))])
  ∧
  (isAemAssetsEnabled w = true →
     ∀ url,
       respond w (TryGenerateAemAssetsOptimizedUrl
                    (VStr (strip_scheme s)) (prop data "sku")) = Ret url →
       events_of (preloadImageMiddleware w data)
       = [Called (TryGenerateAemAssetsOptimizedUrl
                    (VStr (strip_scheme s)) (prop data "sku"));
          Called (UIRender (render_props url cleared_params))]).
Proof.
  intros Hu Hne.
  destruct (middleware_opening data s Hu Hne) as [Hopen Htruthy].
  pose proof (first_image_url_present data s Hu) as Hdata.
  unfold preloadImageMiddleware. fold (first_image_url data).
  rewrite Hopen, bind_ret_l, Htruthy. split.
  - intros ->. rewrite bind_ret_l, built_props. apply render_then_return.
  - intros -> url Hurl.
    rewrite member_present by done. rewrite bind_ret_l.
    rewrite (invoke_answer _ url) by done.
    rewrite bind_Ret, outcome_of_mret, events_of_mret, built_cleared_params.
    rewrite bind_Ret. cbv beta iota. rewrite built_props.
    rewrite events_of_bind, events_of_pair, outcome_of_pair.
    rewrite events_of_bind, events_of_invoke, outcome_of_bind, outcome_of_invoke.
    by destruct (respond w (UIRender _)).
Qed.

(** X15. The middleware handles no failure.  With the rewrite enabled, a
    failing rewriter ends it there, before any render; a failing render is
    its outcome: the input is not returned. *)
Theorem preloadImageMiddleware_failures (data : value) (s : string) (e : exn) :
  first_image_url data = VStr s →
  strip_scheme s ≠ "" →
  (isAemAssetsEnabled w = true →
     respond w (TryGenerateAemAssetsOptimizedUrl
                  (VStr (strip_scheme s)) (prop data "sku")) = Throw e →
     preloadImageMiddleware w data
     = (Throw e,
        [Called (TryGenerateAemAssetsOptimizedUrl
                   (VStr (strip_scheme s)) (prop data "sku"))]))
  ∧
  (isAemAssetsEnabled w = false →
     respond w (UIRender (render_props (VStr (strip_scheme s)) plain_params))
     = Throw e →
     outcome_of (preloadImageMiddleware w data) = Throw e).
Proof.
  intros Hu Hne.
  destruct (middleware_opening data s Hu Hne) as [Hopen Htruthy].
  pose proof (first_image_url_present data s Hu) as Hdata.
  unfold preloadImageMiddleware. fold (first_image_url data).
  rewrite Hopen, bind_ret_l, Htruthy. split.
  - intros -> He.
    rewrite member_present by done. rewrite bind_ret_l.
    by rewrite (invoke_failure _ e).
  - intros -> He. rewrite bind_ret_l, built_props.
    change IMAGES_SIZES with plain_params.
    by rewrite !outcome_of_bind, outcome_of_invoke, He.
Qed.

(** X16. An address of the first image that is there but is not a string (a
    number, an object) has no replace method: the middleware throws a
    TypeError before any effect. *)
Theorem preloadImageMiddleware_url_not_text (data : value) :
  is_nullish (first_image_url data) = false →
  (∀ s, first_image_url data ≠ VStr s) →
  preloadImageMiddleware w data = (Throw TypeError, []).
Proof.
  intros Hthere Hnot. unfold preloadImageMiddleware.
  fold (first_image_url data). rewrite Hthere.
  destruct (first_image_url data) as [| | | |s| |]; try done.
  by destruct (Hnot s).
Qed.

End MiddlewareBehaviour.

Lemma preloadImageMiddleware_renders_witness :
  events_of (preloadImageMiddleware Sample.blank (VObj Sample.with_video))
  = [Called (UIRender (render_props (VStr "//x/a.jpg") plain_params))]
  ∧
  events_of (preloadImageMiddleware Scenario.optimizing (VObj Sample.with_video))
  = [Called (TryGenerateAemAssetsOptimizedUrl (VStr "//x/a.jpg") (VStr "ABC123"));
     Called (UIRender (render_props (VStr "//delivery/a.jpg") cleared_params))].
Proof.
  split.
  - refine (proj1 (preloadImageMiddleware_renders Sample.blank
                     (VObj Sample.with_video) "http://x/a.jpg" eq_refl _) eq_refl).
    discriminate.
  - refine (proj2 (preloadImageMiddleware_renders Scenario.optimizing
                     (VObj Sample.with_video) "http://x/a.jpg" eq_refl _)
              eq_refl (VStr "//delivery/a.jpg") eq_refl).
    discriminate.
Defined.

Lemma preloadImageMiddleware_failures_witness :
  preloadImageMiddleware Scenario.unrewritable (VObj Sample.with_video)
  = (Throw (Rejected (VStr "rewrite failed")),
     [Called (TryGenerateAemAssetsOptimizedUrl (VStr "//x/a.jpg") (VStr "ABC123"))])
  ∧
  outcome_of (preloadImageMiddleware Scenario.unrenderable (VObj Sample.with_video))
  = Throw (Rejected (VStr "render failed")).
Proof.
  split.
  - refine (proj1 (preloadImageMiddleware_failures Scenario.unrewritable
                     (VObj Sample.with_video) "http://x/a.jpg"
                     (Rejected (VStr "rewrite failed")) eq_refl _) eq_refl eq_refl).
    discriminate.
  - refine (proj2 (preloadImageMiddleware_failures Scenario.unrenderable
                     (VObj Sample.with_video) "http://x/a.jpg"
                     (Rejected (VStr "render failed")) eq_refl _) eq_refl eq_refl).
    discriminate.
Defined.

Lemma preloadImageMiddleware_url_not_text_witness :
  preloadImageMiddleware Sample.blank Scenario.with_numeric_url
  = (Throw TypeError, []).
Proof.
  apply (preloadImageMiddleware_url_not_text Sample.blank Scenario.with_numeric_url).
  - reflexivity.
  - intros s. discriminate.
Defined.

Lemma strip_scheme_only_scheme_witness :
  strip_scheme "HTTP://x/a.jpg" = "HTTP://x/a.jpg".
Proof.
  apply (proj2 (proj2 (proj2 (strip_scheme_only_scheme "HTTP://x/a.jpg" "")))).
  reflexivity.
Defined.

(* ===================================================================== *)
(** * Further behaviour: the callback *)
(* ===================================================================== *)

Section CallbackBehaviour.
Variable w : World.

Lemma fetchAll_events (sku uids : value) :
  events_of (fetchAll w sku uids)
  = Called (product_request w sku)
    :: match outcome_of (fetchProductDataWithVideos w sku
                           (VObj (<["optionsUIDs" := uids]> ∅))) with
       | Ret product => events_of (preloadImageMiddleware w product)
       | Throw _ => []
       end
    ++ [Called labels_request].
Proof.
  unfold fetchAll, promise_all2.
  destruct (_ ≫= preloadImageMiddleware w) as [oa ea] eqn:Hchain.
  change ea with (events_of (oa, ea)). rewrite <- Hchain.
  rewrite events_of_bind, fetchProductDataWithVideos_events. done.
Qed.

(** X21. The two requests of the callback are both issued whatever the
    other one does: the product request comes first, and the request for
    the labels is made even when the product request fails. *)
Theorem fetchAll_issues_both_requests (sku uids : value) :
  ∃ rest,
    events_of (fetchAll w sku uids)
    = Called (FetchGraphQl (PRODUCT_QUERY_WITH_VIDEOS w) "GET" [sku]) :: rest ∧
    Called (FetchPlaceholders "placeholders/pdp.json") ∈ rest.
Proof.
  rewrite fetchAll_events. eexists. split; [reflexivity|].
  rewrite elem_of_app, list_elem_of_singleton. by right.
Qed.

Lemma ends_once_nil : ends_once [].
Proof. exists [], []. repeat split; [constructor | by left]. Qed.

Lemma ends_once_app (before evs : list event) :
  Forall (λ ev, terminal ev = false) before →
  ends_once evs → ends_once (before ++ evs).
Proof.
  intros Hq (before' & rest & -> & Hq' & Hrest).
  exists (before ++ before'), rest. rewrite app_assoc. repeat split; [|done].
  by apply Forall_app.
Qed.

Lemma ends_once_handOff (sku uids product labels : value) :
  ends_once (events_of (handOff w sku uids product labels)).
Proof.
  unfold handOff. rewrite events_of_bind. simpl outcome_of. cbv iota.
  apply ends_once_app; [repeat constructor|].
  destruct (negb _); rewrite events_of_invoke;
    (eexists [], _; repeat split; [constructor | right; by eexists]).
Qed.

(** X19. In every world, whatever fails or succeeds, the callback redirects
    to the error page or mounts at most once, and does nothing after it:
    its events are events that are neither, followed by nothing or by that
    single redirect or mount. *)
Theorem initCallback_ends_once : ends_once (events_of (initCallback w)).
Proof.
  unfold initCallback.
  rewrite events_of_bind.
  apply ends_once_app; [by apply quiet_invoke|].
  destruct (outcome_of _); [|apply ends_once_nil].
  rewrite events_of_bind.
  apply ends_once_app; [apply quiet_preloadPDPAssets|].
  destruct (outcome_of _); [|apply ends_once_nil].
  rewrite events_of_bind.
  apply ends_once_app; [by apply quiet_invoke|].
  destruct (outcome_of _) as [sku|]; [|apply ends_once_nil].
  rewrite events_of_bind.
  apply ends_once_app; [by apply quiet_invoke|].
  destruct (outcome_of _) as [uids|]; [|apply ends_once_nil].
  rewrite events_of_bind.
  apply ends_once_app; [apply quiet_fetchAll|].
  destruct (outcome_of _) as [fetched|]; [|apply ends_once_nil].
  apply ends_once_handOff.
Qed.

(** X18. When the fetch yields a product with a non-empty SKU, the callback
    ends by logging the product and mounting with: the SKU and the option
    UIDs of the address (not those of the product), the labels under the
    locale key default, the product itself as initial data, and both the
    analytics layer and the persistence of URL parameters switched on. *)
Theorem initCallback_mount_configuration
    (sku uids labels : value) (m : gmap string value) (s : string) :
  fetched w sku uids (VObj m) labels →
  m !! "sku" = Some (VStr s) →
  s ≠ "" →
  ∃ before,
    events_of (initCallback w)
    = before ++
      [ Console Log "product" [VObj m] None;
        Called (MountImmediately {|
          cfg_sku := sku;
          cfg_optionsUIDs := uids;
          cfg_langDefinitions := VObj (<["default" := VObj (own_props labels)]> ∅);
          cfg_initialData := VObj m;
          cfg_acdl := true;
          cfg_persistURLParams := true |}) ].
Proof.
  intros Hfetched Hsku Hne.
  destruct (initCallback_events w sku uids (VObj m) labels Hfetched)
    as (before & _ & ->).
  exists before. f_equal. unfold handOff.
  rewrite opt_prop_obj, Hsku. simpl default. simpl to_boolean.
  apply String.eqb_neq in Hne. rewrite Hne. done.
Qed.


End CallbackBehaviour.

Lemma initCallback_mount_configuration_witness :
  ∃ before,
    events_of (initCallback (Sample.catalog (VObj Sample.with_video)))
    = before ++
      [ Console Log "product" [VObj Sample.with_video] None;
        Called (MountImmediately {|
          cfg_sku := VStr "ABC123";
          cfg_optionsUIDs := VUndefined;
          cfg_langDefinitions := VObj (<["default" := VObj (own_props VUndefined)]> ∅);
          cfg_initialData := VObj Sample.with_video;
          cfg_acdl := true;
          cfg_persistURLParams := true |}) ].
Proof.
  apply (initCallback_mount_configuration (Sample.catalog (VObj Sample.with_video))
           (VStr "ABC123") VUndefined VUndefined Sample.with_video "ABC123").
  - split; first [reflexivity | by exists VUndefined].
  - reflexivity.
  - discriminate.
Defined.


Example callback_offline :
  events_of (initCallback Scenario.offline)
  = [Called SetEndpoint]
    ++ (script_hint <$> script_bundles)
    ++ [ Console Warn "Unable to infer main image from JSON-LD or meta tags" [] None;
         Called GetProductSku;
         Called GetOptionsUIDsFromUrl;
         Called (FetchGraphQl (PRODUCT_QUERY_WITH_VIDEOS Scenario.offline)
                   "GET" [VUndefined]);
         Called (FetchPlaceholders "placeholders/pdp.json") ].
Proof. reflexivity. Qed.
